(** * PNGProtect: the image protection engine

    A shallow embedding of the watermark codec
    ([backend/app/services/watermarking.py]), of the verdict block of
    [verify_image] ([backend/app/routes/verify.py]) and of the epsilon
    mapping of [process_protection] ([backend/app/routes/protection.py]),
    followed by the properties the specification states about them.

    Conventions.
    - A Python [str] is a list of Unicode code points ([N]); [ord] is the
      identity on them.
    - A Python string over the alphabet '0'/'1' (the codec's [binary_data])
      is a [list bool]; ['1'] is [true].
    - An image sample is a [Z]; numpy's element types are written out as
      reductions modulo [2^8] and [2^16].
    - A Python [float] is a binary64 number: Rocq's primitive [float].
    - PIL images and numpy arrays are objects: they live in a heap of
      buffers, and the handles passed around carry the buffer's address. *)

From Stdlib Require Import ZArith NArith List Bool String Ascii Lia Floats.
From stdpp Require Import base option list numbers.
From stdpp Require gmap.

Set Warnings "-inexact-float".
Local Open Scope Z_scope.

(* ===================================================================== *)
(** ** Python built-ins used by the code *)
(* ===================================================================== *)

Module Py.

Abbreviation str := (list N) (only parsing).
Abbreviation bitstr := (list bool) (only parsing).

(** A string literal of the source. *)
Definition lit (s : string) : str := map N_of_ascii (list_ascii_of_string s).

Inductive exn := ValueError | IndexError | OverflowError | TypeError.

(** [format(n, 'b')]: the binary digits of [n], most significant first. *)
Fixpoint pos_bits (p : positive) (acc : bitstr) : bitstr :=
  match p with
  | xH => true :: acc
  | xO q => pos_bits q (false :: acc)
  | xI q => pos_bits q (true :: acc)
  end.

Definition bin (n : N) : bitstr :=
  match n with
  | N0 => [false]
  | Npos p => pos_bits p []
  end.

(** [format(n, '08b')]: zero-padded on the left to a minimum width of 8;
    wider numbers keep all their digits. *)
Definition format_08b (n : N) : bitstr :=
  replicate (8 - length (bin n))%nat false ++ bin n.

(** [k] copies of [s], end to end. *)
Fixpoint repeat_seq {A} (s : list A) (k : nat) : list A :=
  match k with
  | O => []
  | S k' => s ++ repeat_seq s k'
  end.

(** The largest index and length of a sequence (64-bit CPython). *)
Definition PY_SSIZE_T_MAX : Z := 2 ^ 63 - 1.

(** [s * k] on sequences.  The count is converted to an index first and
    OverflowError is raised when it does not fit; a count below 1 gives
    the empty sequence; otherwise OverflowError is raised when the result
    would be longer than [PY_SSIZE_T_MAX].  Exhaustion of memory is not
    modelled, here as for every allocation. *)
Definition mul_seq {A} (s : list A) (k : Z) : exn + list A :=
  if (k <? - 2 ^ 63) || (PY_SSIZE_T_MAX <? k) then inl OverflowError
  else if k <? 1 then inr []
  else if PY_SSIZE_T_MAX / k <? Z.of_nat (length s) then inl OverflowError
  else inr (repeat_seq s (Z.to_nat k)).

(** [s[i:j]] for [0 <= i <= j]. *)
Definition slice {A} (s : list A) (i j : nat) : list A := take (j - i) (drop i s).

(** [range(0, stop, step)] for a positive [step]. *)
Definition range_step (stop step : nat) : list nat :=
  map (λ k, k * step)%nat (seq 0 ((stop + step - 1) / step)).

(** [int(b, 2)]: raises ValueError on the empty string. *)
Definition int_base2 (b : bitstr) : option N :=
  match b with
  | [] => None
  | _ => Some (fold_left (λ acc d, 2 * acc + N.b2n d)%N b 0%N)
  end.

(** [chr(n)]: raises ValueError outside [range(0x110000)]. *)
Definition chr (n : N) : option N :=
  if (n <? 0x110000)%N then Some n else None.

(** [s.startswith(sep)] *)
Fixpoint starts_with (sep s : str) : bool :=
  match sep, s with
  | [], _ => true
  | _ :: _, [] => false
  | a :: sep', b :: s' => (a =? b)%N && starts_with sep' s'
  end.

(** [s.find(sep)], with [None] for -1. *)
Fixpoint find (sep s : str) : option nat :=
  if starts_with sep s then Some O
  else match s with
       | [] => None
       | _ :: s' => S <$> find sep s'
       end.

(** [sep in s] *)
Definition contains (sep s : str) : bool :=
  match find sep s with Some _ => true | None => false end.

(** [s.split(sep)[0]] for a non-empty [sep]. *)
Definition split_head (sep s : str) : str :=
  match find sep s with
  | Some i => take i s
  | None => s
  end.

(** [int(x)] on a float: truncation toward zero; raises on NaN
    (ValueError) and on the infinities (OverflowError). *)
Definition int_of_float (x : float) : exn + Z :=
  match Prim2SF x with
  | S754_zero _ => inr 0
  | S754_finite s m e =>
      let a := if 0 <=? e then Z.pos m * 2 ^ e else Z.pos m / 2 ^ (- e) in
      inr (if s then - a else a)
  | S754_infinity _ => inl OverflowError
  | S754_nan => inl ValueError
  end.

End Py.

(* ===================================================================== *)
(** ** The object heap, numpy arrays and PIL images *)
(* ===================================================================== *)

Module Mem.
Import Py.

Abbreviation loc := nat (only parsing).

(** Buffers are addressed in allocation order. *)
Abbreviation heap := (list (list Z)) (only parsing).

Inductive outcome (A : Type) : Type :=
| Ok (a : A)
| Raise (e : exn).
Arguments Ok {A} a.
Arguments Raise {A} e.

(** Computations that read and write the heap and may raise. *)
Definition M (A : Type) : Type := heap → outcome A * heap.

Definition ret {A} (a : A) : M A := λ h, (Ok a, h).
Definition raise {A} (e : exn) : M A := λ h, (Raise e, h).
Definition bind {A B} (m : M A) (k : A → M B) : M B :=
  λ h, match m h with
       | (Ok a, h') => k a h'
       | (Raise e, h') => (Raise e, h')
       end.

(** The result of an expression that may raise. *)
Definition lift {A} (r : exn + A) : M A :=
  match r with
  | inl e => raise e
  | inr a => ret a
  end.

Definition alloc (buf : list Z) : M loc := λ h, (Ok (length h), h ++ [buf]).

(** A location outside the heap reads as the empty buffer. *)
Definition contents (l : loc) : M (list Z) := λ h, (Ok (default [] (h !! l)), h).

(** [for x in xs: body(x)] *)
Fixpoint for_in {A} (xs : list A) (body : A → M unit) : M unit :=
  match xs with
  | [] => ret tt
  | x :: xs' => bind (body x) (λ _, for_in xs' body)
  end.

(** [[f(x) for x in xs]] *)
Fixpoint list_comp {A B} (xs : list A) (f : A → M B) : M (list B) :=
  match xs with
  | [] => ret []
  | x :: xs' => bind (f x) (λ y, bind (list_comp xs' f) (λ ys, ret (y :: ys)))
  end.

End Mem.

Declare Scope py_scope.
Delimit Scope py_scope with py.
Notation "x <- c1 ;; c2" := (Mem.bind c1 (λ x, c2))
  (at level 100, c1 at next level, right associativity) : py_scope.
Notation "c1 ;;; c2" := (Mem.bind c1 (λ _, c2))
  (at level 100, right associativity) : py_scope.

Module Np.
Import Py Mem.
Local Open Scope py_scope.

Inductive dtype := uint8 | uint16.

Definition width (t : dtype) : Z :=
  match t with uint8 => 8 | uint16 => 16 end.

(** Conversion of an integer to an element type. *)
Definition wrap (t : dtype) (x : Z) : Z := x mod 2 ^ width t.

(** A numpy array: a shape and an element type over a buffer.  Two
    handles with the same [data] are views of one another. *)
Record ndarray := { shape : list nat; elt : dtype; data : loc }.

(** A PIL image in mode RGB: [size] is (width, height) and the buffer
    holds the samples row by row, R, G, B for each pixel.  Every image
    the routes hand to the codec comes from [load_image_from_bytes],
    which converts to RGB, so the mode test at the head of the codec's
    functions never fires. *)
Record Image := { size : nat * nat; im : loc }.

(** [np.array(image, dtype=t)]: a fresh (height, width, 3) array. *)
Definition array (image : Image) (t : dtype) : M ndarray :=
  px <- contents (im image) ;;
  l <- alloc (map (wrap t) px) ;;
  ret {| shape := [snd (size image); fst (size image); 3%nat]; elt := t; data := l |}.

(** [a.flatten()]: a fresh one-dimensional copy, in row-major order. *)
Definition flatten (a : ndarray) : M ndarray :=
  buf <- contents (data a) ;;
  l <- alloc buf ;;
  ret {| shape := [foldr Nat.mul 1%nat (shape a)]; elt := elt a; data := l |}.

(** [len(a)] *)
Definition len (a : ndarray) : nat := hd O (shape a).

(** [a[i]] on a one-dimensional array, for [i >= 0]. *)
Definition getitem (a : ndarray) (i : nat) : M Z :=
  λ h, match default [] (h !! data a) !! i with
       | Some x => (Ok x, h)
       | None => (Raise IndexError, h)
       end.

(** [a[i] = v] on a one-dimensional array, for [i >= 0]: in place. *)
Definition setitem (a : ndarray) (i : nat) (v : Z) : M unit :=
  λ h, let buf := default [] (h !! data a) in
       if (i <? length buf)%nat
       then (Ok tt, <[data a := <[i := wrap (elt a) v]> buf]> h)
       else (Raise IndexError, h).

(** [a.reshape(shp)]: a view of the same buffer. *)
Definition reshape (a : ndarray) (shp : list nat) : M ndarray :=
  ret {| shape := shp; elt := elt a; data := data a |}.

(** [a & k]: a fresh array. *)
Definition and_scalar (a : ndarray) (k : Z) : M ndarray :=
  buf <- contents (data a) ;;
  l <- alloc (map (λ x, Z.land x k) buf) ;;
  ret {| shape := shape a; elt := elt a; data := l |}.

(** [a.astype(t)]: a fresh array. *)
Definition astype (a : ndarray) (t : dtype) : M ndarray :=
  buf <- contents (data a) ;;
  l <- alloc (map (wrap t) buf) ;;
  ret {| shape := shape a; elt := t; data := l |}.

(** [Image.fromarray(a, mode='RGB')]: a fresh image. *)
Definition fromarray (a : ndarray) : M Image :=
  match shape a with
  | [h; w; _] =>
      buf <- contents (data a) ;;
      l <- alloc buf ;;
      ret {| size := (w, h); im := l |}
  | _ => raise TypeError
  end.

End Np.

(* ===================================================================== *)
(** ** services/watermarking.py *)
(* ===================================================================== *)

Module Watermarking.
Import Py Mem Np.
Local Open Scope py_scope.

Definition delimiter : str := lit "@@@@".
Definition sentinel : str := lit "Unknown".

(** [''.join(format(ord(i), '08b') for i in data)] *)
Definition to_binary (data : str) : bitstr := concat (map format_08b data).

(** The bit string [embed_watermark_lsb] writes (lines 22-26) when the
    repetition of line 26 returns: the digits of [data], [strength] times
    over. *)
Definition binary_data_of (watermark_text : str) (strength : Z) : bitstr :=
  let data := watermark_text ++ delimiter in
  let binary_data := to_binary data in
  repeat_seq binary_data (Z.to_nat strength).

(** The bound on the number of samples read (line 54). *)
Definition scan_cap : nat := Z.to_nat 16000.

(** [str(int(x) & 1)] as a bit. *)
Definition lsb (x : Z) : bool := Z.land x 1 =? 1.

(** The body of the embedding loop (line 37). *)
Definition embed_step (flat : ndarray) (binary_data : bitstr) (i : nat) : M unit :=
  x <- getitem flat i ;;
  b <- match binary_data !! i with
       | Some b => ret b
       | None => raise IndexError
       end ;;
  setitem flat i (Z.lor (Z.land x 0xFE) (Z.b2z b)).

(** The embedding loop (lines 35-37). *)
Definition embed_loop (flat : ndarray) (binary_data : bitstr) : M unit :=
  for_in (seq 0 (length binary_data)) (embed_step flat binary_data).

(** The body of the comprehension of line 54. *)
Definition read_lsb (flat : ndarray) (i : nat) : M bool :=
  x <- getitem flat i ;; ret (lsb x).

Definition embed_watermark_lsb (image : Image) (watermark_text : str) (strength : Z)
  : M (Image * bitstr) :=
  let data := watermark_text ++ delimiter in
  let binary_data := to_binary data in
  binary_data <- lift (mul_seq binary_data strength) ;;
  pixels <- array image uint16 ;;
  let original_shape := shape pixels in
  flat <- flatten pixels ;;
  if (len flat <? length binary_data)%nat then raise ValueError
  else
    embed_loop flat binary_data ;;;
    r <- reshape flat original_shape ;;
    m <- and_scalar r 0xFF ;;
    modified_pixels <- astype m uint8 ;;
    watermarked_image <- fromarray modified_pixels ;;
    ret (watermarked_image, binary_data).

(** Line 56: the bit string cut into groups of eight; the last group is
    shorter when the length is not a multiple of 8. *)
Definition all_bytes_of (binary_data : bitstr) : list bitstr :=
  map (λ i, slice binary_data i (i + 8)) (range_step (length binary_data) 8).

(** The decoding loop (lines 57-66).  The result is the final value of
    [decoded] and what the loop returned, if it did. *)
Fixpoint scan (all_bytes : list bitstr) (decoded : str) : str * option (str * float) :=
  match all_bytes with
  | [] => (decoded, None)
  | b :: rest =>
      match int_base2 b ≫= chr with
      | Some char =>
          let decoded := decoded ++ [char] in
          if contains delimiter decoded
          then (decoded, Some (split_head delimiter decoded, 1.0%float))
          else scan rest decoded
      | None => scan rest decoded
      end
  end.

Definition extract_watermark_lsb (image : Image) : M (str * float) :=
  pixels <- array image uint8 ;;
  flat <- flatten pixels ;;
  binary_data <- list_comp (seq 0 (len flat `min` scan_cap)) (read_lsb flat) ;;
  let all_bytes := all_bytes_of binary_data in
  match snd (scan all_bytes []) with
  | Some r => ret r
  | None => ret (sentinel, 0.1%float)
  end.

End Watermarking.

(* ===================================================================== *)
(** ** routes/verify.py *)
(* ===================================================================== *)

Module Verify.
Import Py Mem Np Watermarking.
Local Open Scope float_scope.

(** A stored watermark record; only the owner is read here. *)
Record WatermarkRecord := { owner_id : str }.

Record VerifyResponse := {
  watermark_found : bool;
  resp_owner_id : option str;
  confidence : Z;
  tamper_status : string;
  extracted_text : str;
  match_ratio : float
}.

(** Line 51. *)
Definition found_rule (record : option WatermarkRecord) (extracted_text : str)
    (match_ratio : float) : bool :=
  bool_decide (record ≠ None)
  || ((0.5 <? match_ratio) && bool_decide (extracted_text ≠ lit "Unknown")).

(** Line 52. *)
Definition owner_rule (record : option WatermarkRecord) (extracted_text : str)
    : option str :=
  match record with
  | Some r => Some (owner_id r)
  | None => if bool_decide (extracted_text ≠ lit "Unknown") then Some extracted_text else None
  end.

(** Lines 57-74: the float handed to [int] and the status string. *)
Definition branch (watermark_found : bool) (match_ratio : float) : float * string :=
  if watermark_found then
    if 0.9 <? match_ratio then (90 + (match_ratio - 0.9) * 100, "intact"%string)
    else if 0.7 <? match_ratio then (60 + (match_ratio - 0.7) * 100, "modified"%string)
    else (40 + match_ratio * 100, "modified"%string)
  else
    if 0.4 <? match_ratio then (20 + match_ratio * 80, "modified"%string)
    else (match_ratio * 40, "no watermark"%string).

(** Lines 51-85 of [verify_image]: the verdict computed from the
    extraction result and the outcome of the store lookup. *)
Definition classify (record : option WatermarkRecord) (extracted_text : str)
    (match_ratio : float) : exn + VerifyResponse :=
  let watermark_found := found_rule record extracted_text match_ratio in
  let owner := owner_rule record extracted_text in
  let '(raw, tamper) := branch watermark_found match_ratio in
  match int_of_float raw with
  | inl e => inl e
  | inr confidence =>
      let confidence := Z.max 0 (Z.min 100 confidence) in
      inr {| watermark_found := watermark_found;
             resp_owner_id := owner;
             confidence := confidence;
             tamper_status := tamper;
             extracted_text := extracted_text;
             match_ratio := match_ratio |}
  end.

(** [verify_image] from the decoded image on: extraction, the lookup in
    the record store, and the verdict.  The store belongs to the caller;
    [store] is its lookup for the hash of the uploaded bytes. *)
Definition verify_image (store : str → option WatermarkRecord) (image : Image)
  : M VerifyResponse :=
  Mem.bind (extract_watermark_lsb image) (λ r,
    let '(extracted_text, match_ratio) := r in
    let record := store extracted_text in
    match classify record extracted_text match_ratio with
    | inl e => raise e
    | inr v => ret v
    end).

End Verify.

(* ===================================================================== *)
(** ** routes/protection.py *)
(* ===================================================================== *)

Module Protection.
Local Open Scope float_scope.

(** Lines 33-35 of [process_protection]: the epsilon handed to
    [protect_image]. *)
Definition epsilon_of (strength : float) : float :=
  if 1.0 <? strength then (strength / 100.0) * 0.05 else strength.

End Protection.


(* ===================================================================== *)
(** ** Closed forms used in the proofs *)
(* ===================================================================== *)

Module Closed.
Import Py Mem Np Watermarking.

(** The value [int(b, 2)] accumulates, starting from [acc]. *)
Definition bits_val (b : bitstr) (acc : N) : N :=
  fold_left (λ acc d, 2 * acc + N.b2n d)%N b acc.

(** The character a group of digits decodes to. *)
Definition group_char (b : bitstr) : N := bits_val b 0.

(** The groups [int(b, 2)] and [chr] accept. *)
Definition decodable (b : bitstr) : Prop := b ≠ [] ∧ (length b <= 8)%nat.

(** The sample one iteration of the embedding loop writes (line 37). *)
Definition marked (x : Z) (b : bool) : Z := Z.lor (Z.land x 0xFE) (Z.b2z b).

(** What the embedding loop leaves in the flat buffer. *)
Fixpoint set_lsbs (bits : bitstr) (buf : list Z) : list Z :=
  match bits, buf with
  | b :: bits', x :: buf' => marked x b :: set_lsbs bits' buf'
  | _, _ => buf
  end.

(** What extraction answers on a given string of least-significant bits. *)
Definition decode (binary_data : bitstr) : str * float :=
  match snd (scan (all_bytes_of binary_data) []) with
  | Some r => r
  | None => (sentinel, 0.1%float)
  end.

(** The bits extraction reads from a buffer of samples. *)
Definition window (px : list Z) : bitstr := map lsb (take scan_cap px).

(** A buffer of 8-bit samples. *)
Definition bytes (px : list Z) : Prop := Forall (λ x, 0 <= x < 256) px.

(** A well-formed RGB image in a heap: its buffer holds
    [height * width * 3] samples of 8 bits, and their number is a length,
    at most [PY_SSIZE_T_MAX], as that of every buffer. *)
Definition image_at (h : heap) (image : Image) (px : list Z) : Prop :=
  h !! im image = Some px
  ∧ length px = (snd (size image) * fst (size image) * 3)%nat
  ∧ bytes px
  ∧ Z.of_nat (length px) <= PY_SSIZE_T_MAX.

(** The number of bytes of a code point in UTF-8. *)
Definition utf8_length (c : N) : nat :=
  if (c <? 0x80)%N then 1 else if (c <? 0x800)%N then 2
  else if (c <? 0x10000)%N then 3 else 4.

(** The length of the bit string as the specification counts it: 8 bits
    for each byte of the UTF-8 identifier and of the 4-byte delimiter,
    [strength] times over. *)
Definition spec_bitstream_length (identifier : str) (strength : Z) : Z :=
  8 * (Z.of_nat (foldr Nat.add O (map utf8_length identifier)) + 4) * strength.

(** The array [np.array(image, dtype=t)] returns on the heap [h]. *)
Definition pixels_of (h : heap) (image : Image) (t : dtype) : ndarray :=
  {| shape := [snd (size image); fst (size image); 3%nat]; elt := t; data := length h |}.

(** [extract(embed(image, id, strength))]: extraction from the image
    that embedding returns, on the heap that embedding leaves. *)
Definition extract_after_embed (image : Image) (watermark_text : str) (strength : Z)
  : M (str * float) :=
  Mem.bind (embed_watermark_lsb image watermark_text strength)
           (λ r, extract_watermark_lsb (fst r)).

(** Code points that fit one byte. *)
Definition latin1 (s : str) : Prop := Forall (λ c, (c < 256)%N) s.

(** The first delimiter of [s + "@@@@"] is the appended one. *)
Definition delimiter_free (s : str) : Prop :=
  find delimiter (s ++ delimiter) = Some (length s).

End Closed.

(* ===================================================================== *)
(** ** Sample inputs *)
(* ===================================================================== *)

Module Samples.
Import Py Mem Np Watermarking Closed.

(** An all-zero buffer of [n] samples. *)
Definition blank (n : nat) : list Z := replicate n 0.

(** A [w] by [ht] image whose buffer is at address 0. *)
Definition image_of (w ht : nat) : Image := {| size := (w, ht); im := O |}.

(** The all-zero 4 by 4 image (48 samples) alone on the heap. *)
Definition heap_4x4 : heap := [blank 48].

(** The all-zero 16 by 16 image (768 samples) with the given bits written
    over its least-significant bits from sample [start] on. *)
Definition bits_at (start : nat) (bits : bitstr) : list Z :=
  set_lsbs (replicate start false ++ bits) (blank 768).

(** Executable form of [bytes]. *)
Definition bytesb (px : list Z) : bool := forallb (λ x, (0 <=? x) && (x <? 256)) px.

(** Executable form of [latin1]. *)
Definition latin1b (s : str) : bool := forallb (λ c, c <? 256)%N s.

(** The all-zero 74 by 73 image (16206 samples) alone on the heap. *)
Definition wide : nat := Z.to_nat 16206.
Definition heap_74x73 : heap := [blank wide].

(** An identifier of 1997 letters "a". *)
Definition long_text : str := replicate (Z.to_nat 1997) 97%N.

End Samples.

(* ===================================================================== *)
(** ** services/watermarking.py: [strip_metadata_from_image] *)
(* ===================================================================== *)

Module Pil.
Import Py Mem Np.
Local Open Scope py_scope.

(** A pixel of an RGB image. *)
Abbreviation pixel := (Z * Z * Z)%type (only parsing).

(** The samples of a buffer taken three by three. *)
Fixpoint pixels (px : list Z) : list pixel :=
  match px with
  | r :: g :: b :: rest => (r, g, b) :: pixels rest
  | _ => []
  end.

(** The samples of a list of pixels. *)
Fixpoint samples (data : list pixel) : list Z :=
  match data with
  | [] => []
  | (r, g, b) :: rest => r :: g :: b :: samples rest
  end.

(** What PIL stores for a channel value: saturation to 8 bits. *)
Definition clip8 (x : Z) : Z := Z.max 0 (Z.min 255 x).

(** [list(image.getdata())] *)
Definition getdata (image : Image) : M (list pixel) :=
  px <- contents (im image) ;; ret (pixels px).

(** [Image.new('RGB', size)]: a fresh black image. *)
Definition new (sz : nat * nat) : M Image :=
  l <- alloc (replicate (snd sz * fst sz * 3) 0) ;;
  ret {| size := sz; im := l |}.

(** [image.putdata(data)]: the pixels of [data] from the upper left corner
    on, in place; TypeError when there are more of them than the image
    has. *)
Definition putdata (image : Image) (data : list pixel) : M unit :=
  λ h, if (snd (size image) * fst (size image) <? length data)%nat
       then (Raise TypeError, h)
       else let buf := default [] (h !! im image) in
            (Ok tt, <[im image := map clip8 (samples data) ++ drop (3 * length data) buf]> h).

End Pil.

Module Stripping.
Import Py Mem Np Pil.
Local Open Scope py_scope.

(** Lines 70-82.  The image's metadata is outside this model of an image:
    what is modelled is what the function does with the pixel data. *)
Definition strip_metadata_from_image (image : Image) : M Image :=
  data <- getdata image ;;
  image_without_metadata <- new (size image) ;;
  putdata image_without_metadata data ;;;
  ret image_without_metadata.

End Stripping.

(* ===================================================================== *)
(** ** The routes' replies and upload checks *)
(* ===================================================================== *)

Module Http.

(** What a route hands back: a response, or the HTTPException it raised. *)
Inductive reply (A : Type) : Type :=
| Respond (a : A)
| HTTPException (status_code : Z) (detail : list N).
Arguments Respond {A} a.
Arguments HTTPException {A} status_code detail.

(** Truth value of an optional string: None and the empty string are
    false. *)
Definition truthy (s : option (list N)) : bool :=
  match s with
  | Some (_ :: _) => true
  | _ => false
  end.

End Http.

Module Uploads.
Import Py Http.

(** [validate_image_upload] of routes/verify.py (lines 14-19) and
    routes/metadata.py (lines 12-17), on the upload's content type. *)
Definition validate_image_upload (content_type : option str) : reply unit :=
  if negb (truthy content_type)
     || negb (starts_with (lit "image/") (default [] content_type))
  then HTTPException 400 (lit "Invalid file type. Please upload a PNG or JPEG image.")
  else Respond tt.

(** The content-type test of [process_protection] (routes/protection.py,
    lines 18-19). *)
Definition process_protection_check (content_type : option str) : reply unit :=
  if truthy content_type
     && negb (starts_with (lit "image/") (default [] content_type))
  then HTTPException 400 (lit "File must be an image")
  else Respond tt.

End Uploads.

(* ===================================================================== *)
(** ** routes/verify.py: [detect_watermark] *)
(* ===================================================================== *)

Module Detect.
Import Py Mem Np Watermarking Verify Http.
Local Open Scope float_scope.

Record WatermarkDetectionResponse := {
  has_watermark : bool;
  det_extracted_text : str;
  det_match_ratio : float;
  message : str
}.

(** Lines 135-154: the response computed from the extraction result.
    [store] is the record store's lookup for the hash of the uploaded
    bytes. *)
Definition detection (store : str → option WatermarkRecord) (extracted_text : str)
    (match_ratio : float) : WatermarkDetectionResponse :=
  let stored_record :=
    if bool_decide (extracted_text ≠ lit "Unknown") then store extracted_text else None in
  let has_watermark :=
    ((0.5 <? match_ratio) && bool_decide (extracted_text ≠ lit "Unknown"))
    || bool_decide (stored_record ≠ None) in
  let message :=
    if has_watermark then
      let owner :=
        if bool_decide (extracted_text ≠ lit "Unknown") then extracted_text
        else match stored_record with
             | Some r => owner_id r
             | None => lit "Unknown"
             end in
      lit "Image already contains a watermark. Owner ID: " ++ owner
        ++ lit ". Cannot re-watermark."
    else lit "Image is clean and ready to be watermarked." in
  {| has_watermark := has_watermark;
     det_extracted_text := if has_watermark then extracted_text else [];
     det_match_ratio := match_ratio;
     message := message |}.

(** [detect_watermark] from the decoded image on (lines 126-159): any
    exception becomes a reply with status 500, whose detail ends with the
    exception's text [str_of e]. *)
Definition detect_watermark (str_of : exn → str) (store : str → option WatermarkRecord)
    (image : Image) (h : list (list Z))
  : reply WatermarkDetectionResponse * list (list Z) :=
  match extract_watermark_lsb image h with
  | (Ok (extracted_text, match_ratio), h') =>
      (Respond (detection store extracted_text match_ratio), h')
  | (Raise e, h') =>
      (HTTPException 500 (lit "Error detecting watermark: " ++ str_of e), h')
  end.

End Detect.

(* ===================================================================== *)
(** ** routes/dashboard.py: bulk watermarking *)
(* ===================================================================== *)

Module Dashboard.
Import stdpp.gmap.
Import Py Mem Np Watermarking Http.

(** An uploaded file: its name, and what its [read()] and [seek(0)] give,
    a value or the text of the exception raised. *)
Record UploadFile := {
  filename : str;
  read : str + list Z;
  seek0 : str + unit
}.

(** The code dashboard.py calls and does not own: the image decoder and
    encoder, the hash, the identifiers [uuid4] draws (the one drawn while
    file [i] is processed), the record store, and the text of an
    exception.  A call that may raise gives the exception's text or its
    value. *)
Record Collaborators := {
  load_image_from_bytes : list Z → list (list Z) → (str + Image) * list (list Z);
  save_image_to_bytes : Image → list (list Z) → (str + list Z) * list (list Z);
  sha256_bytes : list Z → str;
  uuid4 : nat → str;
  save_record : str → str → str → Z → nat → str + unit;
  str_of : exn → str
}.

(** An entry of [operation["results"]]. *)
Inductive BulkResult :=
| Success (file_name watermark_id : str)
| Failed (file_name error : str).

(** A value of the [bulk_operations] dict. *)
Record Operation := {
  op_status : string;
  total_files : nat;
  processed_files : nat;
  failed_files : nat;
  created_at : Z;
  op_user_id : str;
  results : list BulkResult
}.

Definition set_status (o : Operation) (s : string) : Operation :=
  {| op_status := s; total_files := total_files o;
     processed_files := processed_files o; failed_files := failed_files o;
     created_at := created_at o; op_user_id := op_user_id o; results := results o |}.

(** [operation["failed_files"] += 1] *)
Definition count_failed (o : Operation) : Operation :=
  {| op_status := op_status o; total_files := total_files o;
     processed_files := processed_files o; failed_files := S (failed_files o);
     created_at := created_at o; op_user_id := op_user_id o; results := results o |}.

(** [operation["processed_files"] += 1] *)
Definition count_processed (o : Operation) : Operation :=
  {| op_status := op_status o; total_files := total_files o;
     processed_files := S (processed_files o); failed_files := failed_files o;
     created_at := created_at o; op_user_id := op_user_id o; results := results o |}.

(** [operation["results"].append(r)] *)
Definition append_result (o : Operation) (r : BulkResult) : Operation :=
  {| op_status := op_status o; total_files := total_files o;
     processed_files := processed_files o; failed_files := failed_files o;
     created_at := created_at o; op_user_id := op_user_id o; results := results o ++ [r] |}.

(** Lines 165-178: the statements that follow the payload test inside
    [try], for a non-empty payload. *)
Definition watermark_file (env : Collaborators) (owner_id : str) (strength : Z)
    (i : nat) (raw_bytes : list Z) (h : list (list Z)) : (str + str) * list (list Z) :=
  match load_image_from_bytes env raw_bytes h with
  | (inl err, h1) => (inl err, h1)
  | (inr image, h1) =>
      match embed_watermark_lsb image owner_id strength h1 with
      | (Raise e, h2) => (inl (str_of env e), h2)
      | (Ok (watermarked_image, binary_data), h2) =>
          match save_image_to_bytes env watermarked_image h2 with
          | (inl err, h3) => (inl err, h3)
          | (inr watermarked_bytes, h3) =>
              let watermarked_image_hash := sha256_bytes env watermarked_bytes in
              let watermark_id := uuid4 env i in
              match save_record env watermark_id watermarked_image_hash owner_id
                                strength (length binary_data) with
              | inl err => (inl err, h3)
              | inr _ => (inr watermark_id, h3)
              end
          end
      end
  end.

(** The [try] statement of the loop body (lines 157-193): the operation
    it leaves, and whether it ended in [continue]. *)
Definition try_file (env : Collaborators) (owner_id : str) (strength : Z)
    (i : nat) (file : UploadFile) (operation : Operation) (h : list (list Z))
  : (Operation * bool) * list (list Z) :=
  match read file with
  | inl err =>
      ((append_result (count_failed operation) (Failed (filename file) err), false), h)
  | inr [] => ((count_failed operation, true), h)
  | inr raw_bytes =>
      match watermark_file env owner_id strength i raw_bytes h with
      | (inr watermark_id, h') =>
          ((count_processed
              (append_result operation (Success (filename file) watermark_id)), false), h')
      | (inl err, h') =>
          ((append_result (count_failed operation) (Failed (filename file) err), false), h')
      end
  end.

(** [for i, file in enumerate(files)], from index [i] on.  The result is
    the operation the loop leaves and, when [seek(0)] raised, outside the
    [try], the text of the exception that ended the task. *)
Fixpoint bulk_loop (env : Collaborators) (owner_id : str) (strength : Z)
    (i : nat) (files : list UploadFile) (operation : Operation) (h : list (list Z))
  : (Operation * option str) * list (list Z) :=
  match files with
  | [] => ((operation, None), h)
  | file :: rest =>
      match try_file env owner_id strength i file operation h with
      | ((operation', true), h') =>
          bulk_loop env owner_id strength (S i) rest operation' h'
      | ((operation', false), h') =>
          match seek0 file with
          | inl err => ((operation', Some err), h')
          | inr _ => bulk_loop env owner_id strength (S i) rest operation' h'
          end
      end
  end.

(** [process_bulk_watermark]: None is the KeyError of an unknown
    operation; otherwise the [bulk_operations] dict the task leaves, with
    the operation updated in place, and the exception that ended it, if
    any. *)
Definition process_bulk_watermark (env : Collaborators) (operation_id : str)
    (files : list UploadFile) (owner_id : str) (strength : Z)
    (bulk_operations : gmap (list N) Operation) (h : list (list Z))
  : option ((gmap (list N) Operation * option str) * list (list Z)) :=
  match bulk_operations !! operation_id with
  | None => None
  | Some operation =>
      let operation := set_status operation "processing" in
      match bulk_loop env owner_id strength 0 files operation h with
      | ((operation, Some err), h') =>
          Some ((<[operation_id := operation]> bulk_operations, Some err), h')
      | ((operation, None), h') =>
          Some ((<[operation_id := set_status operation "completed"]> bulk_operations,
                 None), h')
      end
  end.

Record StartResponse := {
  start_message : str;
  start_operation_id : str;
  start_total_files : nat
}.

(** [start_bulk_watermark] (after authentication): [operation_id] is the
    identifier [uuid4] draws and [now] the clock's time.  The task it
    schedules is [process_bulk_watermark] with the same arguments. *)
Definition start_bulk_watermark (operation_id : str) (now : Z)
    (files : list UploadFile) (owner_id : str) (strength : Z) (current_user_id : str)
    (bulk_operations : gmap (list N) Operation)
  : reply StartResponse * gmap (list N) Operation :=
  if (50 <? length files)%nat
  then (HTTPException 400 (lit "Maximum 50 files allowed"), bulk_operations)
  else if negb ((1 <=? strength)%Z && (strength <=? 10)%Z)
  then (HTTPException 400 (lit "Strength must be between 1 and 10"), bulk_operations)
  else
    (Respond {| start_message := lit "Bulk operation started";
                start_operation_id := operation_id;
                start_total_files := length files |},
     <[operation_id := {| op_status := "pending";
                          total_files := length files;
                          processed_files := 0;
                          failed_files := 0;
                          created_at := now;
                          op_user_id := current_user_id;
                          results := [] |}]> bulk_operations).

Record BulkOperationStatus := {
  bos_operation_id : str;
  bos_status : string;
  bos_total_files : nat;
  bos_processed_files : nat;
  bos_failed_files : nat;
  bos_created_at : Z
}.

(** [get_bulk_operation_status] (after authentication). *)
Definition get_bulk_operation_status (operation_id : str) (current_user_id : str)
    (bulk_operations : gmap (list N) Operation) : reply BulkOperationStatus :=
  match bulk_operations !! operation_id with
  | None => HTTPException 404 (lit "Operation not found")
  | Some operation =>
      if bool_decide (op_user_id operation ≠ current_user_id)
      then HTTPException 403 (lit "Access denied")
      else Respond {| bos_operation_id := operation_id;
                      bos_status := op_status operation;
                      bos_total_files := total_files operation;
                      bos_processed_files := processed_files operation;
                      bos_failed_files := failed_files operation;
                      bos_created_at := created_at operation |}
  end.

(** The files that get an entry in [operation["results"]]: all but those
    whose [read()] returns an empty payload. *)
Definition reported (file : UploadFile) : bool :=
  match read file with
  | inr [] => false
  | _ => true
  end.

(** Sample collaborators: every payload decodes to the all-zero [w] by
    [ht] image, and nothing else fails. *)
Definition sample_env (w ht : nat) : Collaborators :=
  {| load_image_from_bytes := λ _ h,
       (inr {| size := (w, ht); im := length h |}, h ++ [replicate (ht * w * 3) 0%Z]);
     save_image_to_bytes := λ _ h, (inr [], h);
     sha256_bytes := λ _, [];
     uuid4 := λ i, [N.of_nat i];
     save_record := λ _ _ _ _ _, inr tt;
     str_of := λ _, [] |}.

(** A sample upload with a one-byte payload. *)
Definition sample_file : UploadFile :=
  {| filename := lit "a.png"; read := inr [0%Z]; seek0 := inr tt |}.

End Dashboard.

Import Py Mem Np Watermarking Verify Protection Closed Samples.

(* ===================================================================== *)
(** ** Facts about the built-ins *)
(* ===================================================================== *)

Section BuiltinFacts.

Lemma pos_bits_length p acc :
  length (pos_bits p acc) = (Pos.size_nat p + length acc)%nat.
Proof.
  revert acc; induction p as [q IH|q IH|]; intros acc; simpl; try rewrite IH; simpl; lia.
Qed.

Lemma bits_val_pos_bits p acc :
  bits_val (pos_bits p acc) 0 = bits_val acc (Npos p).
Proof.
  revert acc; induction p as [q IH|q IH|]; intros acc; simpl; try rewrite IH; reflexivity.
Qed.

Lemma bits_val_zeros k b : bits_val (replicate k false ++ b) 0 = bits_val b 0.
Proof. induction k as [|k IH]; [reflexivity|exact IH]. Qed.

Lemma bin_nonempty n : bin n ≠ [].
Proof.
  destruct n as [|p]; [discriminate|]. simpl. intros E.
  apply (f_equal length) in E. rewrite pos_bits_length in E. destruct p; simpl in E; lia.
Qed.

Lemma bits_val_bin n : bits_val (bin n) 0 = n.
Proof. destruct n as [|p]; [reflexivity|]. simpl. now rewrite bits_val_pos_bits. Qed.

(** [int(format(n, '08b'), 2) == n] *)
Lemma int_base2_format_08b n : int_base2 (format_08b n) = Some n.
Proof.
  unfold int_base2, format_08b.
  destruct (replicate (8 - length (bin n)) false ++ bin n) eqn:E.
  - apply app_eq_nil in E as [_ E]. now apply bin_nonempty in E.
  - rewrite <- E. f_equal. fold (bits_val (replicate (8 - length (bin n)) false ++ bin n) 0).
    now rewrite bits_val_zeros, bits_val_bin.
Qed.

Lemma size_nat_byte p : (Npos p < 256)%N → (Pos.size_nat p <= 8)%nat.
Proof.
  intros H.
  do 8 (destruct p as [p|p|]; [| |simpl; lia]); lia.
Qed.

(** A code point below 256 is written on exactly eight digits. *)
Lemma format_08b_length n : (n < 256)%N → length (format_08b n) = 8%nat.
Proof.
  intros H. unfold format_08b. rewrite length_app, length_replicate.
  assert (length (bin n) <= 8)%nat; [|lia].
  destruct n as [|p]; simpl; [lia|].
  rewrite pos_bits_length. simpl. apply size_nat_byte in H. lia.
Qed.

Lemma bits_val_bound b acc :
  (bits_val b acc < (acc + 1) * 2 ^ N.of_nat (length b))%N.
Proof.
  revert acc; induction b as [|d b IH]; intros acc.
  - simpl. lia.
  - cbn [bits_val fold_left length]. fold (bits_val b (2 * acc + N.b2n d)).
    specialize (IH (2 * acc + N.b2n d)%N).
    rewrite Nat2N.inj_succ, N.pow_succ_r'.
    destruct d; simpl N.b2n in *; nia.
Qed.

(** A group of at most eight digits is the number of a byte, and [chr]
    accepts it. *)
Lemma decode_group b :
  b ≠ [] → (length b <= 8)%nat →
  ∃ n, int_base2 b = Some n ∧ (n < 256)%N ∧ chr n = Some n.
Proof.
  intros Hne Hlen. exists (bits_val b 0).
  assert (Hb : (bits_val b 0 < 256)%N).
  { pose proof (bits_val_bound b 0) as Hb.
    assert (2 ^ N.of_nat (length b) <= 2 ^ 8)%N by (apply N.pow_le_mono_r; lia).
    change (2 ^ 8)%N with 256%N in *. lia. }
  split; [|split]; [|exact Hb|].
  - destruct b; [congruence|reflexivity].
  - unfold chr. destruct (N.ltb_spec (bits_val b 0) 0x110000); [reflexivity|lia].
Qed.

End BuiltinFacts.

(* ===================================================================== *)
(** ** Facts about substring search *)
(* ===================================================================== *)

Section SearchFacts.
Implicit Types sep s t : str.

Lemma starts_with_length sep s :
  starts_with sep s = true → (length sep <= length s)%nat.
Proof.
  revert s; induction sep as [|a sep IH]; intros [|b s]; simpl; try lia; try discriminate.
  intros H. apply andb_true_iff in H as [_ H]. apply IH in H. lia.
Qed.

Lemma starts_with_app sep s t :
  starts_with sep s = true → starts_with sep (s ++ t) = true.
Proof.
  revert s; induction sep as [|a sep IH]; intros [|b s]; simpl; try easy.
  intros H. apply andb_true_iff in H as [-> H]. simpl. now apply IH.
Qed.

Lemma starts_with_app_false sep s t :
  starts_with sep s = false → (length sep <= length s)%nat →
  starts_with sep (s ++ t) = false.
Proof.
  revert s; induction sep as [|a sep IH]; intros [|b s]; simpl; try easy; try lia.
  intros H Hl. destruct (a =? b)%N; [simpl in *|reflexivity]. apply IH; [exact H|lia].
Qed.

Lemma starts_with_refl_app sep t : starts_with sep (sep ++ t) = true.
Proof. induction sep as [|a sep IH]; simpl; [reflexivity|]. now rewrite N.eqb_refl. Qed.

Lemma find_bound sep s i :
  find sep s = Some i → (i + length sep <= length s)%nat.
Proof.
  revert i; induction s as [|b s IH]; intros i; simpl.
  - destruct (starts_with sep []) eqn:E; [|discriminate].
    intros [= <-]. apply starts_with_length in E. simpl in *. lia.
  - destruct (starts_with sep (b :: s)) eqn:E.
    + intros [= <-]. apply starts_with_length in E. simpl in *. lia.
    + destruct (find sep s) as [j|]; [|discriminate]. simpl. intros [= <-].
      specialize (IH j eq_refl). lia.
Qed.

(** The first occurrence does not move when the string is extended. *)
Lemma find_app sep s t i :
  find sep s = Some i → find sep (s ++ t) = Some i.
Proof.
  revert i; induction s as [|b s IH]; intros i.
  - simpl. destruct (starts_with sep []) eqn:E; [|discriminate].
    intros [= <-]. destruct sep; [|discriminate]. now destruct t.
  - cbn [find app]. destruct (starts_with sep (b :: s)) eqn:E.
    + intros [= <-]. pose proof (starts_with_app sep (b :: s) t E) as E'.
      cbn [app] in E'. now rewrite E'.
    + destruct (find sep s) as [j|] eqn:F; [|discriminate]. simpl. intros [= <-].
      apply find_bound in F as Hb.
      assert (E' : starts_with sep ((b :: s) ++ t) = false)
        by (apply starts_with_app_false; [exact E|simpl; lia]).
      cbn [app] in E'. rewrite E'.
      now rewrite (IH j eq_refl).
Qed.

Lemma find_occurrence sep s t : ∃ i, find sep (s ++ sep ++ t) = Some i.
Proof.
  induction s as [|b s [i IH]].
  - exists O. destruct sep; [now destruct t|].
    cbn [app]. change (n :: sep ++ t) with ((n :: sep) ++ t).
    unfold find. destruct ((n :: sep) ++ t) eqn:E; rewrite <- E, starts_with_refl_app; reflexivity.
  - cbn [app find]. destruct (starts_with sep (b :: s ++ sep ++ t)); [now eexists|].
    rewrite IH. now eexists.
Qed.

Lemma contains_find sep s : contains sep s = true ↔ ∃ i, find sep s = Some i.
Proof.
  unfold contains. destruct (find sep s); split; eauto; try discriminate.
  intros [i [=]].
Qed.

Lemma contains_app sep s t : contains sep s = true → contains sep (s ++ t) = true.
Proof.
  rewrite !contains_find. intros [i H]. exists i. now apply find_app.
Qed.

Lemma split_head_app sep s t :
  contains sep s = true → split_head sep (s ++ t) = split_head sep s.
Proof.
  intros H. apply contains_find in H as [i H]. unfold split_head.
  rewrite (find_app _ _ t _ H), H. apply find_bound in H.
  rewrite take_app_le by lia. reflexivity.
Qed.

End SearchFacts.

(* ===================================================================== *)
(** ** The decoding loop *)
(* ===================================================================== *)

Section ScanFacts.

Lemma decodable_char b : decodable b → int_base2 b ≫= chr = Some (group_char b).
Proof.
  intros [Hne Hlen]. destruct (decode_group b Hne Hlen) as (n & Hn & _ & Hc).
  rewrite Hn. simpl. rewrite Hc. f_equal.
  destruct b; [congruence|]. now injection Hn.
Qed.

(** The loop returns exactly when the characters decoded so far and
    those of the remaining groups contain the delimiter, and then with
    the text before its first occurrence. *)
Lemma scan_result groups decoded :
  Forall decodable groups →
  contains delimiter decoded = false →
  let full := decoded ++ map group_char groups in
  snd (scan groups decoded) =
    if contains delimiter full
    then Some (split_head delimiter full, 1.0%float)
    else None.
Proof.
  intros Hg. revert decoded. induction Hg as [|b rest Hb Hrest IH]; intros decoded Hd full.
  - subst full. simpl. rewrite app_nil_r, Hd. reflexivity.
  - cbn [scan]. rewrite (decodable_char b Hb).
    subst full. cbn [map].
    replace (decoded ++ group_char b :: map group_char rest)
      with ((decoded ++ [group_char b]) ++ map group_char rest)
      by (now rewrite <- app_assoc).
    destruct (contains delimiter (decoded ++ [group_char b])) eqn:E.
    + rewrite (contains_app _ _ _ E), (split_head_app _ _ _ E). reflexivity.
    + apply IH, E.
Qed.

(** No group is skipped: the final [decoded] holds one character for
    each group the loop has consumed. *)
Lemma scan_decoded groups decoded :
  Forall decodable groups →
  ∃ k, (k <= length groups)%nat
     ∧ fst (scan groups decoded) = decoded ++ map group_char (take k groups)
     ∧ (snd (scan groups decoded) = None → k = length groups).
Proof.
  intros Hg. revert decoded. induction Hg as [|b rest Hb Hrest IH]; intros decoded.
  - exists O. simpl. rewrite app_nil_r. auto.
  - cbn [scan]. rewrite (decodable_char b Hb).
    destruct (contains delimiter (decoded ++ [group_char b])) eqn:E.
    + exists 1%nat. simpl. split; [lia|]. split; [reflexivity|discriminate].
    + destruct (IH (decoded ++ [group_char b])) as (k & Hk & Hf & Hn).
      exists (S k). simpl. split; [lia|]. split.
      * rewrite Hf, <- app_assoc. reflexivity.
      * intros H. f_equal. auto.
Qed.

End ScanFacts.

(* ===================================================================== *)
(** ** Grouping the bit string into bytes *)
(* ===================================================================== *)

Section GroupFacts.
Implicit Types bits rest g : bitstr.

Lemma all_bytes_of_eq bits :
  all_bytes_of bits =
  map (λ k, take 8 (drop (k * 8) bits)) (seq 0 ((length bits + 7) / 8)).
Proof.
  unfold all_bytes_of, range_step, slice. rewrite map_map.
  replace (length bits + 8 - 1)%nat with (length bits + 7)%nat by lia.
  apply map_ext. intros k. f_equal. lia.
Qed.

(** Every group is non-empty and at most eight digits long. *)
Lemma all_bytes_decodable bits : Forall decodable (all_bytes_of bits).
Proof.
  rewrite all_bytes_of_eq. apply Forall_forall. intros g Hg.
  apply in_map_iff in Hg as (k & <- & Hk). apply in_seq in Hk.
  assert (k * 8 < length bits)%nat.
  { destruct Hk as [_ Hk].
    pose proof (Nat.Div0.mul_div_le (length bits + 7) 8). lia. }
  split.
  - intros E. apply (f_equal length) in E.
    rewrite length_take, length_drop in E. cbn [length] in E. lia.
  - rewrite length_take. lia.
Qed.

Lemma all_bytes_of_cons g rest :
  length g = 8%nat → all_bytes_of (g ++ rest) = g :: all_bytes_of rest.
Proof.
  intros Hg. rewrite !all_bytes_of_eq, length_app, Hg.
  replace ((8 + length rest + 7) / 8)%nat with (S ((length rest + 7) / 8)).
  2:{ replace (8 + length rest + 7)%nat with (1 * 8 + (length rest + 7))%nat by lia.
      rewrite Nat.div_add_l by lia. lia. }
  cbn [seq map]. f_equal.
  - rewrite Nat.mul_0_l, drop_0. now apply take_app_length'.
  - rewrite <- seq_shift, map_map. apply map_ext. intros k. f_equal.
    rewrite drop_app_ge by lia. f_equal. lia.
Qed.

(** The digits of one-byte characters come back as one group each. *)
Lemma all_bytes_of_to_binary cs rest :
  latin1 cs → all_bytes_of (to_binary cs ++ rest) = map format_08b cs ++ all_bytes_of rest.
Proof.
  induction 1 as [|c cs Hc Hcs IH]; [reflexivity|].
  unfold to_binary in *. cbn [map concat]. rewrite <- !app_assoc.
  rewrite all_bytes_of_cons by now apply format_08b_length.
  cbn [app]. f_equal. exact IH.
Qed.

Lemma group_char_format_08b c : group_char (format_08b c) = c.
Proof.
  pose proof (int_base2_format_08b c) as H. unfold int_base2 in H.
  destruct (format_08b c); [discriminate|]. now injection H.
Qed.

Lemma to_binary_length cs : latin1 cs → length (to_binary cs) = (8 * length cs)%nat.
Proof.
  induction 1 as [|c cs Hc Hcs IH]; [reflexivity|].
  unfold to_binary in *. cbn [map concat]. rewrite length_app, IH, format_08b_length by auto.
  simpl. lia.
Qed.

End GroupFacts.

(* ===================================================================== *)
(** ** Facts about samples *)
(* ===================================================================== *)

Section SampleFacts.

(** A check that holds on the 256 byte values holds on every byte. *)
Lemma byte_cases (P : Z → bool) :
  forallb P (map Z.of_nat (seq 0 256)) = true →
  ∀ x, 0 <= x < 256 → P x = true.
Proof.
  intros H x Hx. rewrite forallb_forall in H. apply H.
  apply in_map_iff. exists (Z.to_nat x). split; [lia|]. apply in_seq. lia.
Qed.

Lemma marked_byte x b :
  0 <= x < 256 →
  marked x b = 2 * (x / 2) + Z.b2z b
  ∧ 0 <= marked x b < 256
  ∧ lsb (marked x b) = b.
Proof.
  intros Hx.
  pose proof (byte_cases
    (λ x, forallb (λ b, (marked x b =? 2 * (x / 2) + Z.b2z b)
                        && (0 <=? marked x b) && (marked x b <? 256)
                        && eqb (lsb (marked x b)) b) [false; true])
    ltac:(vm_compute; reflexivity) x Hx) as H.
  rewrite forallb_forall in H. specialize (H b).
  assert (Hb : In b [false; true]) by (destruct b; simpl; auto).
  apply H in Hb.
  apply andb_true_iff in Hb as [Hb H4]. apply andb_true_iff in Hb as [Hb H3].
  apply andb_true_iff in Hb as [H1 H2].
  split; [lia|split; [lia|now apply eqb_prop]].
Qed.

(** Bits 1 and above of the written sample are those of the input. *)
Lemma marked_high_bits x b k :
  0 <= x < 256 → 0 < k → Z.testbit (marked x b) k = Z.testbit x k.
Proof.
  intros Hx Hk. destruct (marked_byte x b Hx) as (-> & _ & _).
  replace k with (Z.succ (k - 1)) by lia.
  rewrite Z.testbit_succ_r by lia.
  rewrite (Z.div_mod x 2) at 2 by lia.
  destruct (Z.mod_pos_bound x 2 ltac:(lia)) as [? ?].
  replace (x mod 2) with (Z.b2z (x mod 2 =? 1)) by (destruct (Z.eqb_spec (x mod 2) 1); simpl; lia).
  rewrite Z.testbit_succ_r by lia. reflexivity.
Qed.

Lemma wrap_byte t x : 0 <= x < 256 → wrap t x = x.
Proof. intros H. unfold wrap. apply Z.mod_small. destruct t; simpl; lia. Qed.

Lemma land_0xFF_byte x : 0 <= x < 256 → Z.land x 0xFF = x.
Proof.
  intros H. change 0xFF with (Z.ones 8). rewrite Z.land_ones by lia.
  apply Z.mod_small. simpl; lia.
Qed.

Lemma wrap_bytes t px : bytes px → map (wrap t) px = px.
Proof.
  induction 1 as [|x px Hx _ IH]; [reflexivity|]. simpl. now rewrite wrap_byte, IH.
Qed.

Lemma land_0xFF_bytes px : bytes px → map (λ x, Z.land x 0xFF) px = px.
Proof.
  induction 1 as [|x px Hx _ IH]; [reflexivity|]. simpl. now rewrite land_0xFF_byte, IH.
Qed.

Lemma set_lsbs_length bits px : length (set_lsbs bits px) = length px.
Proof.
  revert px; induction bits as [|b bits IH]; intros [|x px]; simpl; auto.
Qed.

Lemma set_lsbs_nil px : set_lsbs [] px = px.
Proof. now destruct px. Qed.

(** Pointwise reading of the loop's result. *)
Lemma set_lsbs_lookup bits px i :
  set_lsbs bits px !! i =
  match bits !! i with
  | Some b => (λ x, marked x b) <$> px !! i
  | None => px !! i
  end.
Proof.
  revert px i; induction bits as [|b bits IH]; intros px i.
  - rewrite set_lsbs_nil. reflexivity.
  - destruct px as [|x px].
    { simpl. rewrite lookup_nil. case_match; reflexivity. }
    destruct i as [|i]; [reflexivity|]. simpl. apply IH.
Qed.

Lemma set_lsbs_bytes bits px : bytes px → bytes (set_lsbs bits px).
Proof.
  intros H. revert bits. induction H as [|x px Hx Hpx IH]; intros [|b bits]; simpl;
    try constructor; auto.
  - apply (marked_byte x b Hx).
  - apply IH.
Qed.

(** One more iteration of the loop. *)
Lemma set_lsbs_step bits px k b x :
  bits !! k = Some b → px !! k = Some x →
  <[k := marked x b]> (set_lsbs (take k bits) px) = set_lsbs (take (S k) bits) px.
Proof.
  revert bits px; induction k as [|k IH]; intros [|b' bits] [|x' px]; try discriminate.
  - simpl. intros [= ->] [= ->]. reflexivity.
  - simpl. intros Hb Hx. f_equal. now apply IH.
Qed.

(** The least-significant bits after the loop: the bit string, then
    those of the untouched samples. *)
Lemma set_lsbs_lsb bits px :
  bytes px → (length bits <= length px)%nat →
  map lsb (set_lsbs bits px) = bits ++ map lsb (drop (length bits) px).
Proof.
  intros H. revert bits. induction H as [|x px Hx Hpx IH]; intros [|b bits]; simpl;
    try reflexivity; try lia.
  intros Hl. f_equal; [apply (marked_byte x b Hx)|]. apply IH. lia.
Qed.

End SampleFacts.

(* ===================================================================== *)
(** ** Running the codec on a heap *)
(* ===================================================================== *)

Section RunFacts.
Implicit Types h : heap.

Lemma bind_ok {A B} (m : M A) (k : A → M B) h a h' :
  m h = (Ok a, h') → bind m k h = k a h'.
Proof. unfold bind. now intros ->. Qed.

Lemma contents_run h l buf : h !! l = Some buf → contents l h = (Ok buf, h).
Proof. unfold contents. now intros ->. Qed.

Lemma lookup_alloc h (buf : list Z) : (h ++ [buf]) !! length h = Some buf.
Proof. rewrite lookup_app_r by lia. now rewrite Nat.sub_diag. Qed.

Lemma insert_alloc h (b e : list Z) : <[length h := e]> (h ++ [b]) = h ++ [e].
Proof. rewrite insert_app_r_alt by lia. now rewrite Nat.sub_diag. Qed.

Lemma bytes_lookup px i x : bytes px → px !! i = Some x → 0 <= x < 256.
Proof. intros H Hi. unfold bytes in H. rewrite Forall_lookup in H. eauto. Qed.

Lemma embed_step_run flat bits buf k h :
  elt flat = uint16 → bytes buf →
  (k < length bits)%nat → (length bits <= length buf)%nat →
  h !! data flat = Some (set_lsbs (take k bits) buf) →
  embed_step flat bits k h =
    (Ok tt, <[data flat := set_lsbs (take (S k) bits) buf]> h).
Proof.
  intros Ht Hb Hk Hl Hh.
  destruct (lookup_lt_is_Some_2 bits k Hk) as [b Hbk].
  destruct (lookup_lt_is_Some_2 buf k ltac:(lia)) as [x Hxk].
  unfold embed_step.
  rewrite (bind_ok _ _ h x h).
  2:{ unfold getitem. rewrite Hh. simpl. rewrite set_lsbs_lookup.
      rewrite lookup_take_ge by lia. now rewrite Hxk. }
  rewrite Hbk. rewrite (bind_ok _ _ h b h) by reflexivity.
  unfold setitem. rewrite Hh. simpl default. rewrite set_lsbs_length.
  destruct (Nat.ltb_spec k (length buf)); [|lia].
  rewrite Ht, wrap_byte by (apply marked_byte; eapply bytes_lookup; eauto).
  fold (marked x b). now rewrite (set_lsbs_step bits buf k b x).
Qed.

Lemma embed_loop_from flat bits buf m : ∀ k h,
  elt flat = uint16 → bytes buf →
  (k + m <= length bits)%nat → (length bits <= length buf)%nat →
  h !! data flat = Some (set_lsbs (take k bits) buf) →
  for_in (seq k m) (embed_step flat bits) h =
    (Ok tt, <[data flat := set_lsbs (take (k + m) bits) buf]> h).
Proof.
  induction m as [|m IH]; intros k h Ht Hb Hk Hl Hh.
  - simpl. unfold ret. rewrite Nat.add_0_r, list_insert_id; auto.
  - cbn [seq for_in].
    rewrite (bind_ok _ _ h tt _ (embed_step_run flat bits buf k h Ht Hb ltac:(lia) Hl Hh)).
    apply lookup_lt_Some in Hh as Hlt.
    rewrite IH; auto; try lia.
    + rewrite list_insert_insert_eq.
      now replace (S k + m)%nat with (k + S m)%nat by lia.
    + now rewrite list_lookup_insert_eq.
Qed.

(** The loop writes the bit string over the least-significant bits of
    the first samples of [flat], in place. *)
Lemma embed_loop_run flat bits buf h :
  elt flat = uint16 → bytes buf → (length bits <= length buf)%nat →
  h !! data flat = Some buf →
  embed_loop flat bits h = (Ok tt, <[data flat := set_lsbs bits buf]> h).
Proof.
  intros Ht Hb Hl Hh. unfold embed_loop.
  rewrite (embed_loop_from flat bits buf (length bits) 0 h); auto.
  simpl. now rewrite firstn_all.
Qed.

Lemma read_lsbs_from flat buf n : ∀ k h,
  h !! data flat = Some buf → (k + n <= length buf)%nat →
  list_comp (seq k n) (read_lsb flat) h = (Ok (map lsb (take n (drop k buf))), h).
Proof.
  induction n as [|n IH]; intros k h Hh Hk; [reflexivity|].
  destruct (lookup_lt_is_Some_2 buf k ltac:(lia)) as [x Hx].
  cbn [seq list_comp].
  rewrite (bind_ok _ _ h (lsb x) h).
  2:{ unfold read_lsb, getitem, bind, ret. rewrite Hh. simpl. now rewrite Hx. }
  rewrite (bind_ok _ _ h _ h (IH (S k) h Hh ltac:(lia))).
  unfold ret. rewrite (drop_S buf x k Hx). reflexivity.
Qed.

End RunFacts.

(** One lemma for each array operation: its result and the heap it
    leaves. *)
Section ArrayRuns.
Variables (h : heap) (a : ndarray) (buf : list Z).
Hypothesis Hbuf : h !! data a = Some buf.

Lemma flatten_run :
  flatten a h =
    (Ok {| shape := [foldr Nat.mul 1%nat (shape a)]; elt := elt a; data := length h |},
     h ++ [buf]).
Proof. unfold flatten. now rewrite (bind_ok _ _ _ _ _ (contents_run _ _ _ Hbuf)). Qed.

Lemma and_0xFF_run :
  bytes buf →
  and_scalar a 0xFF h =
    (Ok {| shape := shape a; elt := elt a; data := length h |}, h ++ [buf]).
Proof.
  intros Hb. unfold and_scalar.
  rewrite (bind_ok _ _ _ _ _ (contents_run _ _ _ Hbuf)).
  unfold bind, alloc, ret. now rewrite (land_0xFF_bytes _ Hb).
Qed.

Lemma astype_run t :
  bytes buf →
  astype a t h = (Ok {| shape := shape a; elt := t; data := length h |}, h ++ [buf]).
Proof.
  intros Hb. unfold astype.
  rewrite (bind_ok _ _ _ _ _ (contents_run _ _ _ Hbuf)).
  unfold bind, alloc, ret. now rewrite (wrap_bytes _ _ Hb).
Qed.

Lemma fromarray_run ht w c :
  shape a = [ht; w; c] →
  fromarray a h = (Ok {| size := (w, ht); im := length h |}, h ++ [buf]).
Proof.
  intros Hs. unfold fromarray. rewrite Hs.
  now rewrite (bind_ok _ _ _ _ _ (contents_run _ _ _ Hbuf)).
Qed.

End ArrayRuns.

(** The codec on a well-formed image [image], whose samples [px] are in
    the heap [h]. *)
Section CodecRuns.
Variables (h : heap) (image : Image) (px : list Z).
Hypothesis Himg : image_at h image px.

Lemma array_run t : array image t h = (Ok (pixels_of h image t), h ++ [px]).
Proof.
  destruct Himg as (Hpx & _ & Hb & _). unfold array.
  rewrite (bind_ok _ _ _ _ _ (contents_run _ _ _ Hpx)).
  unfold bind, alloc, ret. now rewrite (wrap_bytes _ _ Hb).
Qed.

Lemma flat_len t : foldr Nat.mul 1%nat (shape (pixels_of h image t)) = length px.
Proof. destruct Himg as (_ & -> & _). simpl. lia. Qed.

(** [np.array(image, dtype=t).flatten()] *)
Lemma flat_run {B} t (k : ndarray → ndarray → M B) :
  Mem.bind (array image t) (λ pixels, Mem.bind (flatten pixels) (k pixels)) h =
  k (pixels_of h image t) {| shape := [length px]; elt := t; data := S (length h) |}
    (h ++ [px; px]).
Proof.
  rewrite (bind_ok _ _ _ _ _ (array_run t)).
  rewrite (bind_ok _ _ _ _ _ (flatten_run (h ++ [px]) (pixels_of h image t) px (lookup_alloc h px))).
  rewrite flat_len, length_app, <- app_assoc. cbn [length app elt].
  now replace (length h + 1)%nat with (S (length h)) by lia.
Qed.

Lemma lookup_flat : (h ++ [px; px]) !! S (length h) = Some px.
Proof. rewrite lookup_app_r by lia. now replace (S (length h) - length h)%nat with 1%nat by lia. Qed.

Lemma insert_flat e : <[S (length h) := e]> (h ++ [px; px]) = h ++ [px; e].
Proof.
  rewrite insert_app_r_alt by lia.
  now replace (S (length h) - length h)%nat with 1%nat by lia.
Qed.

(** The three ways [embed_watermark_lsb] ends, by what the repetition of
    line 26 gives. *)
Lemma embed_run_overflow text strength e :
  mul_seq (to_binary (text ++ delimiter)) strength = inl e →
  embed_watermark_lsb image text strength h = (Raise e, h).
Proof. intros Hmul. unfold embed_watermark_lsb. rewrite Hmul. reflexivity. Qed.

Lemma embed_run_ok text strength bits :
  mul_seq (to_binary (text ++ delimiter)) strength = inr bits →
  (length bits <= length px)%nat →
  embed_watermark_lsb image text strength h =
    (Ok ({| size := size image; im := (length h + 4)%nat |}, bits),
     h ++ [px; set_lsbs bits px; set_lsbs bits px; set_lsbs bits px; set_lsbs bits px]).
Proof.
  intros Hmul Hlen. destruct Himg as (_ & _ & Hb & _).
  pose proof (set_lsbs_bytes bits px Hb) as Hb'.
  unfold embed_watermark_lsb. rewrite Hmul. unfold lift, bind at 1, ret at 1.
  rewrite (flat_run uint16 (λ pixels flat, if (len flat <? length bits)%nat then _ else _)).
  unfold len. cbn [shape hd].
  destruct (Nat.ltb_spec (length px) (length bits)); [lia|].
  set (flat := {| shape := [length px]; elt := uint16; data := S (length h) |}).
  rewrite (bind_ok _ _ _ tt (h ++ [px; set_lsbs bits px])).
  2:{ rewrite (embed_loop_run flat bits px); auto using lookup_flat.
      cbn [data flat]. now rewrite insert_flat. }
  unfold reshape at 1. unfold bind at 1. unfold ret at 1.
  set (h2 := h ++ [px; set_lsbs bits px]).
  assert (H2 : h2 !! S (length h) = Some (set_lsbs bits px)).
  { subst h2. rewrite lookup_app_r by lia.
    now replace (S (length h) - length h)%nat with 1%nat by lia. }
  erewrite bind_ok by (apply and_0xFF_run; [exact H2|exact Hb']).
  erewrite bind_ok by (apply astype_run; [apply lookup_alloc|exact Hb']).
  erewrite bind_ok by (eapply fromarray_run; [apply lookup_alloc|reflexivity]).
  unfold ret. subst h2. rewrite !length_app, <- !app_assoc. cbn [length app].
  replace (length h + 2 + 1 + 1)%nat with (length h + 4)%nat by lia.
  now destruct image as [[w ht] l].
Qed.

Lemma embed_run_raise text strength bits :
  mul_seq (to_binary (text ++ delimiter)) strength = inr bits →
  (length px < length bits)%nat →
  embed_watermark_lsb image text strength h = (Raise ValueError, h ++ [px; px]).
Proof.
  intros Hmul Hlen. unfold embed_watermark_lsb. rewrite Hmul.
  unfold lift, bind at 1, ret at 1.
  rewrite (flat_run uint16
             (λ pixels flat, if (len flat <? length bits)%nat then _ else _)).
  unfold len. cbn [shape hd].
  now destruct (Nat.ltb_spec (length px) (length bits)); [|lia].
Qed.

Lemma take_min_length {A} (l : list A) n : take (length l `min` n) l = take n l.
Proof.
  destruct (Nat.le_gt_cases (length l) n).
  - rewrite Nat.min_l, firstn_all, take_ge by lia. reflexivity.
  - now rewrite Nat.min_r by lia.
Qed.

(** Extraction answers from the least-significant bits of the first
    [scan_cap] samples, and leaves two fresh copies on the heap. *)
Lemma extract_run :
  extract_watermark_lsb image h = (Ok (decode (window px)), h ++ [px; px]).
Proof.
  unfold extract_watermark_lsb.
  rewrite (flat_run uint8 (λ pixels flat, Mem.bind (list_comp _ (read_lsb flat)) _)).
  unfold len. cbn [shape hd].
  rewrite (bind_ok _ _ _ (window px) (h ++ [px; px])).
  2:{ rewrite (read_lsbs_from _ px); [|apply lookup_flat|lia].
      now rewrite drop_0, take_min_length. }
  unfold decode. now destruct (snd (scan (all_bytes_of (window px)) [])).
Qed.

End CodecRuns.

(* ===================================================================== *)
(** ** The codec's bit string *)
(* ===================================================================== *)

Section BitStringFacts.

Lemma repeat_seq_length {A} (s : list A) k :
  length (repeat_seq s k) = (k * length s)%nat.
Proof. induction k as [|k IH]; simpl; [reflexivity|]. rewrite length_app, IH. lia. Qed.

Lemma latin1_delimiter : latin1 delimiter.
Proof. unfold latin1. repeat constructor. Qed.

Lemma latin1_data text : latin1 text → latin1 (text ++ delimiter).
Proof. intros H. apply Forall_app. split; [exact H|apply latin1_delimiter]. Qed.

(** Eight bits for each character of the identifier and of the
    delimiter, [strength] times over. *)
Lemma binary_data_length text strength :
  latin1 text →
  length (binary_data_of text strength)
  = (Z.to_nat strength * (8 * (length text + 4)))%nat.
Proof.
  intros H. unfold binary_data_of.
  rewrite repeat_seq_length, to_binary_length by now apply latin1_data.
  rewrite length_app. reflexivity.
Qed.

Lemma binary_data_head text strength :
  1 <= strength →
  ∃ rest, binary_data_of text strength = to_binary (text ++ delimiter) ++ rest.
Proof.
  intros H. unfold binary_data_of.
  destruct (Z.to_nat strength) as [|k] eqn:E; [lia|]. simpl. eauto.
Qed.

Lemma marked_bit0 x b : 0 <= x < 256 → Z.testbit (marked x b) 0 = b.
Proof.
  intros Hx. destruct (marked_byte x b Hx) as (-> & _ & _). apply Z.testbit_0_r.
Qed.

End BitStringFacts.

(* ===================================================================== *)
(** ** The repetition of line 26 *)
(* ===================================================================== *)

Section RepetitionFacts.
Implicit Types h : heap.

Lemma mul_seq_cases {A} (s : list A) k :
  mul_seq s k = inr (repeat_seq s (Z.to_nat k)) ∨ mul_seq s k = inl OverflowError.
Proof.
  unfold mul_seq. destruct ((k <? - 2 ^ 63) || (PY_SSIZE_T_MAX <? k)); [now right|].
  destruct (Z.ltb_spec k 1).
  - left. now replace (Z.to_nat k) with O by lia.
  - destruct (PY_SSIZE_T_MAX / k <? Z.of_nat (length s)); [now right|now left].
Qed.

(** The delimiter alone gives 32 digits. *)
Lemma to_binary_data_length text :
  length (to_binary (text ++ delimiter)) = (length (to_binary text) + 32)%nat.
Proof. unfold to_binary. now rewrite map_app, concat_app, length_app. Qed.

(** The repetition returns exactly when the count is at least [-2^63]
    and the result has a length. *)
Lemma mul_seq_data text strength :
  - 2 ^ 63 <= strength →
  Z.of_nat (length (binary_data_of text strength)) <= PY_SSIZE_T_MAX →
  mul_seq (to_binary (text ++ delimiter)) strength = inr (binary_data_of text strength).
Proof.
  unfold binary_data_of. cbv zeta. rewrite repeat_seq_length.
  pose proof (to_binary_data_length text) as Hd.
  set (s := to_binary (text ++ delimiter)) in *. intros Hlo Hlen.
  unfold mul_seq, PY_SSIZE_T_MAX in *.
  destruct (Z.ltb_spec strength (- 2 ^ 63)); [lia|].
  destruct (Z.ltb_spec (2 ^ 63 - 1) strength); [nia|]. cbn [orb].
  destruct (Z.ltb_spec strength 1).
  { now replace (Z.to_nat strength) with O by lia. }
  destruct (Z.ltb_spec ((2 ^ 63 - 1) / strength) (Z.of_nat (length s))); [|reflexivity].
  pose proof (Z.mul_succ_div_gt (2 ^ 63 - 1) strength ltac:(lia)). nia.
Qed.

Lemma mul_seq_data_inv text strength bits :
  mul_seq (to_binary (text ++ delimiter)) strength = inr bits →
  bits = binary_data_of text strength
  ∧ - 2 ^ 63 <= strength
  ∧ Z.of_nat (length bits) <= PY_SSIZE_T_MAX.
Proof.
  unfold binary_data_of. cbv zeta.
  set (s := to_binary (text ++ delimiter)). unfold mul_seq, PY_SSIZE_T_MAX.
  destruct (Z.ltb_spec strength (- 2 ^ 63)); [discriminate|].
  destruct (Z.ltb_spec (2 ^ 63 - 1) strength); [discriminate|]. cbn [orb].
  destruct (Z.ltb_spec strength 1).
  { intros [= <-]. replace (Z.to_nat strength) with O by lia.
    cbn [repeat_seq length]. split; [reflexivity|lia]. }
  destruct (Z.ltb_spec ((2 ^ 63 - 1) / strength) (Z.of_nat (length s))); [discriminate|].
  intros [= <-]. rewrite repeat_seq_length. split; [reflexivity|]. split; [lia|].
  pose proof (Z.mul_div_le (2 ^ 63 - 1) strength ltac:(lia)). nia.
Qed.

(** A bit string that fits a well-formed image has a length. *)
Lemma embed_ok h image px (Himg : image_at h image px) text strength :
  let bits := binary_data_of text strength in
  - 2 ^ 63 <= strength →
  (length bits <= length px)%nat →
  embed_watermark_lsb image text strength h =
    (Ok ({| size := size image; im := (length h + 4)%nat |}, bits),
     h ++ [px; set_lsbs bits px; set_lsbs bits px; set_lsbs bits px; set_lsbs bits px]).
Proof.
  intros bits Hlo Hle. apply (embed_run_ok h image px Himg text strength bits); [|exact Hle].
  apply mul_seq_data; [exact Hlo|]. destruct Himg as (_ & _ & _ & Hmax). fold bits. lia.
Qed.

Lemma embed_raise h image px (Himg : image_at h image px) text strength :
  Z.of_nat (length (binary_data_of text strength)) <= PY_SSIZE_T_MAX →
  (length px < length (binary_data_of text strength))%nat →
  embed_watermark_lsb image text strength h = (Raise ValueError, h ++ [px; px]).
Proof.
  intros Hidx Hlt.
  apply (embed_run_raise h image px Himg text strength (binary_data_of text strength));
    [|exact Hlt].
  apply mul_seq_data; [|exact Hidx].
  destruct (Z.le_gt_cases 1 strength); [lia|]. exfalso. revert Hlt.
  unfold binary_data_of. replace (Z.to_nat strength) with O by lia. cbn. lia.
Qed.

(** A call that returns had a bit string that fits, and returned it. *)
Lemma embed_inv h image px (Himg : image_at h image px) text strength out bits h' :
  embed_watermark_lsb image text strength h = (Ok (out, bits), h') →
  - 2 ^ 63 <= strength
  ∧ (length (binary_data_of text strength) <= length px)%nat.
Proof.
  intros He.
  destruct (mul_seq (to_binary (text ++ delimiter)) strength) as [e|bits'] eqn:Hmul.
  { rewrite (embed_run_overflow h image text strength e Hmul) in He. discriminate. }
  destruct (mul_seq_data_inv _ _ _ Hmul) as (-> & Hlo & _). split; [exact Hlo|].
  destruct (Nat.le_gt_cases (length (binary_data_of text strength)) (length px)) as [Hle|Hgt];
    [exact Hle|].
  rewrite (embed_run_raise h image px Himg text strength _ Hmul Hgt) in He. discriminate.
Qed.

End RepetitionFacts.

(* ===================================================================== *)
(** ** Properties of embedding *)
(* ===================================================================== *)

Section EmbedProperties.
Implicit Types h : heap.

(** C2 (amended).  Capacity check of [embed_watermark_lsb] on an RGB image
    of [height * width * 3] samples, for an identifier whose characters
    are code points below 256 and a strength from 1 to 10, the bit string
    being no longer than a string can be ([PY_SSIZE_T_MAX] bits): the
    call raises ValueError (the specification's CapacityError) exactly
    when [8 * (len(identifier) + 4) * strength] exceeds the number of
    samples, and returns an image with the bit string at equality and
    below; on failure no buffer that existed before the call has changed,
    the heap has gained two unmarked copies of the samples and no image
    is returned.  The bit string has [8 * (len(identifier) + 4) *
    strength] bits. *)
Theorem embed_capacity h image px text strength :
  image_at h image px →
  latin1 text →
  1 <= strength <= 10 →
  8 * (Z.of_nat (length text) + 4) * strength <= PY_SSIZE_T_MAX →
  let bits := binary_data_of text strength in
  let needed := 8 * (Z.of_nat (length text) + 4) * strength in
  let capacity := Z.of_nat (snd (size image) * fst (size image) * 3) in
  (fst (embed_watermark_lsb image text strength h) = Raise ValueError
     ↔ capacity < needed)
  ∧ (needed <= capacity →
       ∃ out, fst (embed_watermark_lsb image text strength h) = Ok (out, bits))
  ∧ (capacity < needed →
       snd (embed_watermark_lsb image text strength h) = h ++ [px; px]
       ∧ ∀ l, (l < length h)%nat →
           snd (embed_watermark_lsb image text strength h) !! l = h !! l)
  ∧ Z.of_nat (length bits) = needed.
Proof.
  intros Himg Hl Hs Hidx bits needed capacity.
  assert (Hlo : - 2 ^ 63 <= strength) by lia.
  assert (Hcap : capacity = Z.of_nat (length px))
    by (destruct Himg as (_ & -> & _); reflexivity).
  assert (Hlen : Z.of_nat (length bits) = needed).
  { subst bits needed. rewrite (binary_data_length text strength Hl), Nat2Z.inj_mul.
    rewrite Z2Nat.id by lia. nia. }
  assert (Hbits : Z.of_nat (length bits) <= PY_SSIZE_T_MAX)
    by (unfold PY_SSIZE_T_MAX in *; lia).
  rewrite Hcap. split; [split|split; [|split]].
  - intros Hr. destruct (Nat.le_gt_cases (length bits) (length px)) as [Hle|Hgt]; [|lia].
    rewrite (embed_ok h image px Himg text strength Hlo Hle) in Hr. discriminate.
  - intros Hgt. rewrite (embed_raise h image px Himg text strength Hbits); [reflexivity|].
    fold bits. lia.
  - intros Hle. rewrite (embed_ok h image px Himg text strength Hlo); [eauto|].
    fold bits. lia.
  - intros Hgt. rewrite (embed_raise h image px Himg text strength Hbits) by (fold bits; lia).
    split; [reflexivity|]. intros l Hlt. simpl. now rewrite lookup_app_l.
  - exact Hlen.
Qed.

(** C9.  Frame property of a successful [embed_watermark_lsb], that is,
    of a call whose strength the repetition of line 26 accepts and whose
    bit string fits the image: the
    returned image has the size of the input; each of its first
    [len(binary_data)] samples is the input sample with bit 0 replaced by
    the watermark bit and bits 1 and above unchanged; every later sample
    equals the input sample; the returned image lives in a buffer
    allocated by the call, and the input buffer, like every buffer that
    existed before the call, is unchanged. *)
Theorem embed_frame h image px text strength :
  image_at h image px →
  let bits := binary_data_of text strength in
  - 2 ^ 63 <= strength →
  (length bits <= length px)%nat →
  ∃ out h' px',
    embed_watermark_lsb image text strength h = (Ok (out, bits), h')
    ∧ h' !! im out = Some px'
    ∧ size out = size image
    ∧ length px' = length px
    ∧ (∀ i b x, bits !! i = Some b → px !! i = Some x →
         px' !! i = Some (Z.lor (Z.land x 0xFE) (Z.b2z b))
         ∧ Z.testbit (Z.lor (Z.land x 0xFE) (Z.b2z b)) 0 = b
         ∧ ∀ k, 0 < k →
             Z.testbit (Z.lor (Z.land x 0xFE) (Z.b2z b)) k = Z.testbit x k)
    ∧ (∀ i, (length bits <= i)%nat → px' !! i = px !! i)
    ∧ h' !! im image = Some px
    ∧ (length h <= im out)%nat
    ∧ im out ≠ im image
    ∧ (∀ l, (l < length h)%nat → h' !! l = h !! l).
Proof.
  intros Himg bits Hlo Hle.
  exists {| size := size image; im := (length h + 4)%nat |}.
  exists (h ++ [px; set_lsbs bits px; set_lsbs bits px; set_lsbs bits px; set_lsbs bits px]).
  exists (set_lsbs bits px).
  split; [exact (embed_ok h image px Himg text strength Hlo Hle)|].
  destruct Himg as (Hpx & Hsz & Hb & Hmax). apply lookup_lt_Some in Hpx as Hlt.
  cbn [im size].
  split; [now rewrite lookup_app_r by lia; replace (length h + 4 - length h)%nat with 4%nat by lia|].
  split; [reflexivity|]. split; [apply set_lsbs_length|].
  split; [|split; [|split; [|split; [|split]]]].
  - intros i b x Hbi Hxi. pose proof (bytes_lookup px i x Hb Hxi) as Hx.
    split; [|split].
    + rewrite set_lsbs_lookup, Hbi, Hxi. reflexivity.
    + apply (marked_bit0 x b Hx).
    + intros k Hk. apply (marked_high_bits x b k Hx Hk).
  - intros i Hi. rewrite set_lsbs_lookup. now rewrite (lookup_ge_None_2 bits i) by lia.
  - now rewrite lookup_app_l.
  - lia.
  - lia.
  - intros l Hl. now rewrite lookup_app_l.
Qed.

Lemma bytesb_bytes px : bytesb px = true → bytes px.
Proof.
  unfold bytesb, bytes. rewrite forallb_forall, Forall_forall.
  intros H x Hx. specialize (H x Hx). lia.
Qed.

Lemma image_at_check h image px :
  bool_decide (h !! im image = Some px)
  && bool_decide (length px = (snd (size image) * fst (size image) * 3)%nat)
  && bytesb px
  && (Z.of_nat (length px) <=? PY_SSIZE_T_MAX) = true →
  image_at h image px.
Proof.
  intros H. apply andb_true_iff in H as [H Hm]. apply andb_true_iff in H as [H Hb].
  apply andb_true_iff in H as [H1 H2]. apply bool_decide_eq_true in H1, H2.
  apply Z.leb_le in Hm. repeat split; auto using bytesb_bytes.
Defined.

Lemma embed_capacity_witness :
  image_at heap_4x4 (image_of 4 4) (blank 48)
  ∧ ∃ out, fst (embed_watermark_lsb (image_of 4 4) (lit "ab") 1 heap_4x4)
           = Ok (out, binary_data_of (lit "ab") 1).
Proof.
  assert (H : image_at heap_4x4 (image_of 4 4) (blank 48))
    by (apply image_at_check; vm_compute; reflexivity).
  split; [exact H|].
  assert (Hl : latin1 (lit "ab")) by (unfold latin1; repeat constructor).
  apply (embed_capacity heap_4x4 (image_of 4 4) (blank 48) (lit "ab") 1 H Hl);
    [lia|vm_compute; discriminate|vm_compute; discriminate].
Defined.

(** C2 as stated fails where the bit string is not 8 bits for each byte
    of the identifier.  The one-character identifier U+20AC has three
    bytes in UTF-8, so the specification counts [8 * (3 + 4) = 56] bits
    at strength 1, more than the 48 samples of a 4 by 4 image; the code
    writes the 14 digits of the code point and the 32 of the delimiter
    and returns an image.  Counted by characters, [8 * (1 + 4) = 40] bits
    fit the 45 samples of a 5 by 3 image, and the code raises ValueError. *)
Lemma embed_capacity_counterexample :
  (spec_bitstream_length [0x20AC%N] 1 = 56
   ∧ Z.of_nat (4 * 4 * 3) < 56
   ∧ fst (embed_watermark_lsb (image_of 4 4) [0x20AC%N] 1 heap_4x4)
     = Ok ({| size := (4%nat, 4%nat); im := 5%nat |}, binary_data_of [0x20AC%N] 1)
   ∧ length (binary_data_of [0x20AC%N] 1) = 46%nat)
  ∧ (8 * (Z.of_nat (length [0x20AC%N]) + 4) * 1 <= Z.of_nat (3 * 5 * 3)
     ∧ fst (embed_watermark_lsb (image_of 5 3) [0x20AC%N] 1 [blank 45])
       = Raise ValueError).
Proof.
  split.
  - split; [reflexivity|]. split; [reflexivity|]. split; vm_compute; reflexivity.
  - split; [vm_compute; discriminate|vm_compute; reflexivity].
Qed.

Lemma embed_frame_witness :
  image_at heap_4x4 (image_of 4 4) (blank 48)
  ∧ (length (binary_data_of (lit "a") 1) <= length (blank 48))%nat
  ∧ ∃ out h', embed_watermark_lsb (image_of 4 4) (lit "a") 1 heap_4x4
              = (Ok (out, binary_data_of (lit "a") 1), h')
              ∧ h' !! im (image_of 4 4) = Some (blank 48).
Proof.
  assert (H : image_at heap_4x4 (image_of 4 4) (blank 48))
    by (apply image_at_check; vm_compute; reflexivity).
  assert (Hl : (length (binary_data_of (lit "a") 1) <= length (blank 48))%nat)
    by (vm_compute; lia).
  split; [exact H|]. split; [exact Hl|].
  destruct (embed_frame heap_4x4 (image_of 4 4) (blank 48) (lit "a") 1 H ltac:(lia) Hl)
    as (out & h' & px' & He & _ & _ & _ & _ & _ & Hin & _).
  exists out, h'. split; [exact He|exact Hin].
Defined.

End EmbedProperties.

(* ===================================================================== *)
(** ** Properties of extraction *)
(* ===================================================================== *)

Section ExtractProperties.
Implicit Types h : heap.

(** The characters of a bit string, one for each group. *)
Lemma decode_spec bits :
  let full := map group_char (all_bytes_of bits) in
  decode bits =
    if contains delimiter full
    then (split_head delimiter full, 1.0%float)
    else (sentinel, 0.1%float).
Proof.
  intros full. unfold decode.
  rewrite (scan_result (all_bytes_of bits) [] (all_bytes_decodable bits) eq_refl).
  cbn [app]. fold full. now destruct (contains delimiter full).
Qed.

Lemma all_bytes_of_app k : ∀ a b : bitstr,
  length a = (8 * k)%nat → all_bytes_of (a ++ b) = all_bytes_of a ++ all_bytes_of b.
Proof.
  induction k as [|k IH]; intros a b Ha.
  - destruct a; [reflexivity|simpl in Ha; lia].
  - assert (Hg : length (take 8 a) = 8%nat) by (rewrite length_take; lia).
    rewrite <- (take_drop 8 a), <- app_assoc.
    rewrite (all_bytes_of_cons (take 8 a) (drop 8 a ++ b) Hg).
    rewrite (all_bytes_of_cons (take 8 a) (drop 8 a) Hg).
    rewrite IH by (rewrite length_drop; lia). reflexivity.
Qed.

Lemma chars_of_to_binary cs :
  map group_char (map format_08b cs) = cs.
Proof.
  induction cs as [|c cs IH]; [reflexivity|]. simpl. now rewrite group_char_format_08b, IH.
Qed.

(** A bit string that starts with the digits of [text + "@@@@"] decodes
    to [text]. *)
Lemma decode_embedded text rest :
  latin1 text → delimiter_free text →
  decode (to_binary (text ++ delimiter) ++ rest) = (text, 1.0%float).
Proof.
  intros Hl Hd. rewrite decode_spec. cbn zeta.
  rewrite all_bytes_of_to_binary by now apply latin1_data.
  rewrite map_app, chars_of_to_binary.
  unfold delimiter_free in Hd.
  pose proof (find_app _ _ (map group_char (all_bytes_of rest)) _ Hd) as Hf.
  unfold contains, split_head. rewrite Hf.
  rewrite <- app_assoc, take_app_length. reflexivity.
Qed.

Lemma window_set_lsbs bits px :
  bytes px → (length bits <= length px)%nat →
  window (set_lsbs bits px) = take scan_cap (bits ++ map lsb (drop (length bits) px)).
Proof.
  intros Hb Hl. unfold window. rewrite <- set_lsbs_lsb by assumption.
  now rewrite firstn_map.
Qed.

Lemma image_at_embedded h image px bits :
  image_at h image px →
  image_at (h ++ [px; set_lsbs bits px; set_lsbs bits px; set_lsbs bits px; set_lsbs bits px])
           {| size := size image; im := (length h + 4)%nat |} (set_lsbs bits px).
Proof.
  intros (Hpx & Hsz & Hb & Hmax). repeat split.
  - cbn [im]. rewrite lookup_app_r by lia.
    now replace (length h + 4 - length h)%nat with 4%nat by lia.
  - cbn [size]. now rewrite set_lsbs_length.
  - now apply set_lsbs_bytes.
  - now rewrite set_lsbs_length.
Qed.

(** What extraction reads back after a successful embedding. *)
Lemma extract_after_embed_run h image px text strength :
  image_at h image px →
  let bits := binary_data_of text strength in
  - 2 ^ 63 <= strength →
  (length bits <= length px)%nat →
  fst (extract_after_embed image text strength h)
  = Ok (decode (take scan_cap (bits ++ map lsb (drop (length bits) px)))).
Proof.
  intros Himg bits Hlo Hle. unfold extract_after_embed.
  rewrite (bind_ok _ _ _ _ _ (embed_ok h image px Himg text strength Hlo Hle)).
  cbn [fst]. fold bits.
  rewrite (extract_run _ _ _ (image_at_embedded h image px bits Himg)).
  cbn [fst]. destruct Himg as (_ & _ & Hb & _). now rewrite window_set_lsbs.
Qed.

(** C1 (amended).  Round trip of the codec: for an RGB image, an identifier
    whose characters are code points below 256, in which the first
    delimiter of [identifier + "@@@@"] is the appended one (the identifier
    neither contains "@@@@" nor ends in "@"), whose bits with the
    delimiter's fit the 16000-sample scan window and, repeated [strength]
    times, fit the image, and a strength of at least 1, extraction from
    the embedded image returns the identifier with match ratio 1.0. *)
Theorem round_trip h image px text strength :
  image_at h image px →
  latin1 text →
  delimiter_free text →
  1 <= strength →
  (8 * (length text + 4) <= scan_cap)%nat →
  (length (binary_data_of text strength) <= length px)%nat →
  fst (extract_after_embed image text strength h) = Ok (text, 1.0%float).
Proof.
  intros Himg Hl Hd Hs Hw Hfit.
  assert (Hlo : - 2 ^ 63 <= strength) by lia.
  rewrite (extract_after_embed_run h image px text strength Himg Hlo Hfit).
  destruct (binary_data_head text strength Hs) as [rest ->].
  rewrite <- app_assoc. rewrite take_app_ge.
  2:{ rewrite to_binary_length by now apply latin1_data. rewrite length_app. simpl. lia. }
  now rewrite decode_embedded.
Qed.

Lemma latin1b_latin1 s : latin1b s = true → latin1 s.
Proof.
  unfold latin1b, latin1. rewrite forallb_forall, Forall_forall.
  intros H c Hc. specialize (H c Hc). now apply N.ltb_lt in H.
Qed.

Lemma round_trip_witness :
  image_at heap_4x4 (image_of 4 4) (blank 48)
  ∧ latin1 (lit "a") ∧ delimiter_free (lit "a")
  ∧ fst (extract_after_embed (image_of 4 4) (lit "a") 1 heap_4x4) = Ok (lit "a", 1.0%float).
Proof.
  assert (H : image_at heap_4x4 (image_of 4 4) (blank 48))
    by (apply image_at_check; vm_compute; reflexivity).
  assert (Hl : latin1 (lit "a")) by (apply latin1b_latin1; reflexivity).
  assert (Hd : delimiter_free (lit "a")) by reflexivity.
  split; [exact H|]. split; [exact Hl|]. split; [exact Hd|].
  apply (round_trip heap_4x4 (image_of 4 4) (blank 48) (lit "a") 1 H Hl Hd).
  - lia.
  - unfold scan_cap. change (length (lit "a")) with 1%nat. lia.
  - vm_compute. lia.
Defined.

(** C1 as stated fails on three kinds of identifier, each embedded with
    strength 1 in an all-zero image that is large enough: "a@" comes back
    as "a"; the one-character identifier U+20AC, written on 14 digits,
    and an identifier of 1997 letters, whose delimiter ends beyond the
    scan window, both come back as "Unknown". *)
Lemma round_trip_counterexample :
  (fst (extract_after_embed (image_of 4 4) (lit "a@") 1 heap_4x4)
     = Ok (lit "a", 1.0%float)
   ∧ lit "a" ≠ lit "a@")
  ∧ (fst (extract_after_embed (image_of 4 4) [0x20AC%N] 1 heap_4x4)
       = Ok (lit "Unknown", 0.1%float)
     ∧ lit "Unknown" ≠ [0x20AC%N])
  ∧ (fst (extract_after_embed (image_of 74 73) long_text 1 heap_74x73)
       = Ok (lit "Unknown", 0.1%float)
     ∧ lit "Unknown" ≠ long_text).
Proof.
  split; [|split].
  - split; [vm_compute; reflexivity|discriminate].
  - split; [vm_compute; reflexivity|discriminate].
  - split; [|discriminate].
    assert (H : image_at heap_74x73 (image_of 74 73) (blank wide))
      by (apply image_at_check; vm_compute; reflexivity).
    rewrite (extract_after_embed_run _ _ _ long_text 1 H) by first [lia|vm_compute; lia].
    vm_compute. reflexivity.
Qed.

End ExtractProperties.

Section ScanWindow.
Implicit Types h : heap.

Lemma take_drop_take {A} (l : list A) i n c :
  (i + n <= c)%nat → take n (drop i (take c l)) = take n (drop i l).
Proof.
  intros H. rewrite !take_drop_commute, take_take. f_equal. f_equal. lia.
Qed.

Lemma extract_decode h image px :
  image_at h image px →
  fst (extract_watermark_lsb image h) = Ok (decode (window px)).
Proof. intros H. now rewrite (extract_run h image px H). Qed.

(** A delimiter on a byte boundary inside the bit string is decoded. *)
Lemma aligned_delimiter_found (bits : bitstr) k :
  take 32 (drop (8 * k) bits) = to_binary delimiter →
  contains delimiter (map group_char (all_bytes_of bits)) = true.
Proof.
  intros Hd.
  assert (Hlen : (8 * k + 32 <= length bits)%nat).
  { apply (f_equal length) in Hd. rewrite length_take, length_drop in Hd.
    change (length (to_binary delimiter)) with 32%nat in Hd. lia. }
  rewrite <- (take_drop (8 * k) bits).
  rewrite (all_bytes_of_app k) by (rewrite length_take; lia).
  rewrite <- (take_drop 32 (drop (8 * k) bits)), Hd.
  rewrite (all_bytes_of_to_binary _ _ latin1_delimiter).
  rewrite !map_app, chars_of_to_binary.
  apply contains_find, find_occurrence.
Qed.

(** C5 (amended).  Extraction answers from the least-significant bits of
    the first 16000 samples alone, read in the order in which embedding
    writes them: two images that agree on those bits get the same answer.
    When the characters decoded from that window do not contain the
    delimiter the answer is "Unknown" with match ratio 0.1, whatever the
    later samples hold.  A delimiter whose 32 bits start at a sample index
    that is a multiple of 8 and end inside the window is found, with match
    ratio 1.0. *)
Theorem scan_window h image px :
  image_at h image px →
  fst (extract_watermark_lsb image h) = Ok (decode (map lsb (take scan_cap px)))
  ∧ (∀ h2 image2 px2,
       image_at h2 image2 px2 →
       map lsb (take scan_cap px2) = map lsb (take scan_cap px) →
       fst (extract_watermark_lsb image2 h2) = fst (extract_watermark_lsb image h))
  ∧ (contains delimiter
       (map group_char (all_bytes_of (map lsb (take scan_cap px)))) = false →
     fst (extract_watermark_lsb image h) = Ok (lit "Unknown", 0.1%float))
  ∧ (∀ k, (8 * k + 32 <= length px `min` scan_cap)%nat →
          map lsb (take 32 (drop (8 * k) px)) = to_binary delimiter →
          ∃ text, fst (extract_watermark_lsb image h) = Ok (text, 1.0%float)).
Proof.
  intros Himg. pose proof (extract_decode h image px Himg) as He.
  unfold window in He. split; [exact He|]. split; [|split].
  - intros h2 image2 px2 H2 Heq.
    rewrite He, (extract_decode h2 image2 px2 H2). unfold window. now rewrite Heq.
  - intros Hc. rewrite He, decode_spec. cbn zeta. now rewrite Hc.
  - intros k Hk Hd. rewrite He, decode_spec. cbn zeta.
    rewrite (aligned_delimiter_found _ k); [eauto|].
    rewrite skipn_map, firstn_map, take_drop_take by lia. exact Hd.
Qed.

Lemma scan_window_witness :
  image_at heap_4x4 (image_of 4 4) (blank 48)
  ∧ fst (extract_watermark_lsb (image_of 4 4) heap_4x4) = Ok (lit "Unknown", 0.1%float).
Proof.
  assert (H : image_at heap_4x4 (image_of 4 4) (blank 48))
    by (apply image_at_check; vm_compute; reflexivity).
  split; [exact H|].
  apply (scan_window heap_4x4 (image_of 4 4) (blank 48) H).
  vm_compute. reflexivity.
Defined.

(** C5 as stated fails for a delimiter at sample 100: in the all-zero
    16 by 16 image, the 32 delimiter bits written from sample 100 on, or
    ending at sample 100, or ending just before it, all lie inside the
    window and extraction still answers "Unknown" with match ratio 0.1;
    so does the image embedding returns, with strength 1, for an
    identifier of one 12-digit character followed by eleven letters,
    whose delimiter it writes from sample 100 on. *)
Lemma scan_window_counterexample :
  (∀ start, In start [100; 69; 68]%nat →
     let px := bits_at start (to_binary delimiter) in
     image_at [px] (image_of 16 16) px
     ∧ map lsb (take 32 (drop start px)) = to_binary delimiter
     ∧ fst (extract_watermark_lsb (image_of 16 16) [px]) = Ok (lit "Unknown", 0.1%float))
  ∧ (let text := 0x800%N :: lit "aaaaaaaaaaa" in
     take 32 (drop 100 (binary_data_of text 1)) = to_binary delimiter
     ∧ fst (extract_after_embed (image_of 16 16) text 1 [blank 768])
       = Ok (lit "Unknown", 0.1%float)).
Proof.
  split.
  - intros start Hs. simpl in Hs.
    destruct Hs as [<-|[<-|[<-|[]]]];
      (split; [apply image_at_check; vm_compute; reflexivity|]);
      split; vm_compute; reflexivity.
  - split; vm_compute; reflexivity.
Qed.

(** C6 (amended).  The two outcomes of extraction.  When the characters
    decoded from the scan window do not contain the delimiter, the answer
    is the sentinel "Unknown" (capital U) with match ratio 0.1; otherwise
    it is the text before the first occurrence of the delimiter, with
    match ratio 1.0.  The match ratio is one of 1.0 and 0.1. *)
Theorem extract_outcomes h image px :
  image_at h image px →
  let decoded := map group_char (all_bytes_of (map lsb (take scan_cap px))) in
  (find delimiter decoded = None →
     fst (extract_watermark_lsb image h) = Ok (lit "Unknown", 0.1%float))
  ∧ (∀ i, find delimiter decoded = Some i →
       fst (extract_watermark_lsb image h) = Ok (take i decoded, 1.0%float))
  ∧ (∃ text ratio,
       fst (extract_watermark_lsb image h) = Ok (text, ratio)
       ∧ (ratio = 1.0%float ∨ ratio = 0.1%float)).
Proof.
  intros Himg decoded. pose proof (extract_decode h image px Himg) as He.
  unfold window in He. rewrite decode_spec in He. cbn zeta in He. fold decoded in He.
  unfold contains, split_head in He.
  destruct (find delimiter decoded) as [i|] eqn:F; rewrite He.
  - split; [discriminate|]. split; [now intros j [= <-]|eauto].
  - split; [reflexivity|]. split; [discriminate|eauto].
Qed.

Lemma extract_outcomes_witness :
  image_at heap_4x4 (image_of 4 4) (blank 48)
  ∧ ∃ text ratio,
      fst (extract_watermark_lsb (image_of 4 4) heap_4x4) = Ok (text, ratio)
      ∧ (ratio = 1.0%float ∨ ratio = 0.1%float).
Proof.
  assert (H : image_at heap_4x4 (image_of 4 4) (blank 48))
    by (apply image_at_check; vm_compute; reflexivity).
  split; [exact H|].
  apply (extract_outcomes heap_4x4 (image_of 4 4) (blank 48) H).
Defined.

(** C6 as stated names the sentinel "unknown": on the all-zero 74 by 73
    image, whose 16206 samples exhaust the scan cap without a delimiter,
    extraction returns "Unknown", which is another string. *)
Lemma extract_outcomes_counterexample :
  image_at heap_74x73 (image_of 74 73) (blank wide)
  ∧ fst (extract_watermark_lsb (image_of 74 73) heap_74x73) = Ok (lit "Unknown", 0.1%float)
  ∧ lit "Unknown" ≠ lit "unknown".
Proof.
  assert (H : image_at heap_74x73 (image_of 74 73) (blank wide))
    by (apply image_at_check; vm_compute; reflexivity).
  split; [exact H|]. split; [|discriminate].
  rewrite (extract_decode _ _ _ H). vm_compute. reflexivity.
Qed.

(** C10.  The skip branch of the decoding loop is never taken: every
    group cut from the bit string is non-empty and at most eight digits
    long, so [int(b, 2)] returns a number below 256 and [chr] accepts it;
    and when the loop ends, [decoded] holds exactly one character for each
    group consumed, all the groups when the loop did not return. *)
Theorem no_byte_skipped (binary_data : bitstr) :
  let all_bytes := all_bytes_of binary_data in
  (∀ b, In b all_bytes →
     ∃ n, int_base2 b = Some n ∧ (n < 256)%N ∧ chr n = Some n)
  ∧ ∃ k, (k <= length all_bytes)%nat
       ∧ fst (scan all_bytes []) = map group_char (take k all_bytes)
       ∧ length (fst (scan all_bytes [])) = k
       ∧ (snd (scan all_bytes []) = None → k = length all_bytes).
Proof.
  intros all_bytes. pose proof (all_bytes_decodable binary_data) as Hg.
  fold all_bytes in Hg. split.
  - intros b Hb. rewrite Forall_forall in Hg. destruct (Hg b Hb) as [Hne Hlen].
    apply decode_group; assumption.
  - destruct (scan_decoded all_bytes [] Hg) as (k & Hk & Hf & Hn).
    exists k. cbn [app] in Hf. rewrite Hf, length_map, length_take. 
    repeat split; auto. lia.
Qed.

Lemma no_byte_skipped_witness :
  let binary_data := to_binary (lit "hi") ++ [true; false; true] in
  fst (scan (all_bytes_of binary_data) []) = lit "hi" ++ [5%N]
  ∧ ∃ k, (k <= 3)%nat ∧ length (fst (scan (all_bytes_of binary_data) [])) = k.
Proof.
  split; [reflexivity|].
  destruct (proj2 (no_byte_skipped (to_binary (lit "hi") ++ [true; false; true])))
    as (k & Hk & _ & Hl & _).
  exists k. split; [exact Hk|exact Hl].
Defined.

End ScanWindow.

(* ===================================================================== *)
(** ** Properties of the verdict *)
(* ===================================================================== *)

Section VerdictProperties.
Local Open Scope float_scope.

Lemma classify_fields record text mr v :
  classify record text mr = inr v →
  watermark_found v = found_rule record text mr
  ∧ resp_owner_id v = owner_rule record text
  ∧ tamper_status v = snd (branch (found_rule record text mr) mr)
  ∧ ∃ c, int_of_float (fst (branch (found_rule record text mr) mr)) = inr c
         ∧ confidence v = Z.max 0 (Z.min 100 c).
Proof.
  unfold classify. destruct (branch (found_rule record text mr) mr) as [raw tamper].
  destruct (int_of_float raw) as [e|c] eqn:E; [discriminate|].
  intros [= <-]. cbn. repeat split. now exists c.
Qed.

(** The verdict on the two match ratios extraction produces. *)
Lemma classify_returns record text mr :
  mr = 1.0 ∨ mr = 0.1 → ∃ v, classify record text mr = inr v.
Proof.
  intros [-> | ->]; unfold classify;
    generalize (owner_rule record text);
    match goal with |- context [found_rule ?r ?t ?m] => generalize (found_rule r t m) end;
    intros [|] owner; vm_compute; eexists; reflexivity.
Qed.

(** On a well-formed image [verify_image] returns a verdict, and its
    confidence is in range. *)
Lemma verify_image_returns store (h : heap) image px :
  image_at h image px →
  ∃ v, fst (verify_image store image h) = Ok v ∧ (0 <= confidence v <= 100)%Z.
Proof.
  intros Himg. unfold verify_image.
  rewrite (bind_ok _ _ _ _ _ (extract_run h image px Himg)).
  rewrite decode_spec. cbn zeta.
  destruct (contains delimiter _);
    match goal with |- context [classify ?r ?t ?m] =>
      destruct (classify_returns r t m ltac:(auto)) as [v Hv]; rewrite Hv
    end;
    exists v; (split; [reflexivity|]);
    apply classify_fields in Hv as (_ & _ & _ & c & _ & ->); lia.
Qed.

(** C3.  Confidence range of the verdict: whenever [verify_image]'s
    verdict block returns, the confidence lies between 0 and 100, by the
    final clamp.  It returns for both match ratios extraction can produce;
    it raises only when the branch formula evaluates to NaN or to an
    infinity, which [int] rejects. *)
Theorem confidence_range record text mr :
  (∀ v, classify record text mr = inr v → 0 <= confidence v <= 100)%Z
  ∧ (mr = 1.0 ∨ mr = 0.1 → ∃ v, classify record text mr = inr v)
  ∧ (∀ e, classify record text mr = inl e →
       let raw := fst (branch (found_rule record text mr) mr) in
       Prim2SF raw = S754_nan ∨ ∃ s, Prim2SF raw = S754_infinity s).
Proof.
  split; [|split].
  - intros v Hv. apply classify_fields in Hv as (_ & _ & _ & c & _ & ->). lia.
  - apply classify_returns.
  - intros e. unfold classify.
    destruct (branch (found_rule record text mr) mr) as [raw tamper]. cbn [fst].
    unfold int_of_float. destruct (Prim2SF raw); try discriminate; eauto.
Qed.

(** C4.  Tamper mapping of the verdict: the status is the piecewise
    function of (found, match_ratio) with strict thresholds 0.9, 0.7 and
    0.4; it is one of the three labels "intact", "modified" and
    "no watermark" (the specification's no_watermark); a found watermark
    with match ratio 0.9 is "modified" and with 0.91 is "intact". *)
Theorem tamper_mapping record text mr :
  (∀ v, classify record text mr = inr v →
     let found := watermark_found v in
     (found = true → (0.9 <? mr) = true → tamper_status v = "intact"%string)
     ∧ (found = true → (0.9 <? mr) = false → (0.7 <? mr) = true →
          tamper_status v = "modified"%string)
     ∧ (found = true → (0.9 <? mr) = false → (0.7 <? mr) = false →
          tamper_status v = "modified"%string)
     ∧ (found = false → (0.4 <? mr) = true → tamper_status v = "modified"%string)
     ∧ (found = false → (0.4 <? mr) = false → tamper_status v = "no watermark"%string)
     ∧ In (tamper_status v) ["intact"; "modified"; "no watermark"]%string)
  ∧ (∃ v, classify None (lit "alice") 0.9 = inr v
          ∧ watermark_found v = true ∧ tamper_status v = "modified"%string)
  ∧ (∃ v, classify None (lit "alice") 0.91 = inr v
          ∧ watermark_found v = true ∧ tamper_status v = "intact"%string).
Proof.
  split; [|split].
  - intros v Hv found. apply classify_fields in Hv as (Hf & _ & Ht & _).
    subst found. rewrite Ht, Hf. unfold branch.
    destruct (found_rule record text mr), (0.9 <? mr), (0.7 <? mr), (0.4 <? mr);
      cbn [snd]; repeat split; try discriminate; try reflexivity;
      simpl; auto.
  - eexists. split; [vm_compute; reflexivity|]. split; reflexivity.
  - eexists. split; [vm_compute; reflexivity|]. split; reflexivity.
Qed.

(** C7 (amended).  Found and owner rules of the verdict, with the
    sentinel spelled as the code spells it, "Unknown": the watermark is
    found if and only if a stored record matched or (match_ratio > 0.5 and
    the extracted text is not "Unknown"); the owner is the record's owner
    when there is a record, else the extracted text when it is not
    "Unknown", else none.  The verdict carries both values. *)
Theorem found_and_owner record text mr :
  (found_rule record text mr = true
     ↔ record ≠ None ∨ ((0.5 <? mr) = true ∧ text ≠ lit "Unknown"))
  ∧ (∀ r, record = Some r → owner_rule record text = Some (owner_id r))
  ∧ (record = None → text ≠ lit "Unknown" → owner_rule record text = Some text)
  ∧ (record = None → text = lit "Unknown" → owner_rule record text = None)
  ∧ (∀ v, classify record text mr = inr v →
       watermark_found v = found_rule record text mr
       ∧ resp_owner_id v = owner_rule record text).
Proof.
  split; [|split; [|split; [|split]]].
  - unfold found_rule. rewrite orb_true_iff, andb_true_iff, !bool_decide_eq_true.
    reflexivity.
  - now intros r ->.
  - intros -> Ht. unfold owner_rule. now rewrite bool_decide_eq_true_2.
  - intros -> Ht. unfold owner_rule. rewrite bool_decide_eq_false_2; [reflexivity|].
    intros Hn. now apply Hn.
  - intros v Hv. now apply classify_fields in Hv as (? & ? & _).
Qed.

(** C7 as stated names the sentinel "unknown": for the extracted text
    "unknown" with match ratio 1.0 and no record, the stated rule gives
    not found and no owner, and the code answers found, with owner
    "unknown". *)
Lemma found_and_owner_counterexample :
  classify None (lit "unknown") 1.0
  = inr {| watermark_found := true;
           resp_owner_id := Some (lit "unknown");
           confidence := 100;
           tamper_status := "intact";
           extracted_text := lit "unknown";
           match_ratio := 1.0 |}
  ∧ ¬ (@None WatermarkRecord ≠ None
       ∨ ((0.5 <? 1.0) = true ∧ lit "unknown" ≠ lit "unknown")).
Proof.
  split; [vm_compute; reflexivity|].
  intros [H|[_ H]]; now apply H.
Qed.

Lemma confidence_range_witness :
  ∃ v, classify None (lit "alice") 1.0 = inr v ∧ (0 <= confidence v <= 100)%Z.
Proof.
  destruct (proj1 (proj2 (confidence_range None (lit "alice") 1.0)) (or_introl eq_refl))
    as [v Hv].
  exists v. split; [exact Hv|].
  exact (proj1 (confidence_range None (lit "alice") 1.0) v Hv).
Defined.

Lemma tamper_mapping_witness :
  ∃ v, classify None (lit "Unknown") 0.1 = inr v
       ∧ tamper_status v = "no watermark"%string.
Proof.
  eexists. split; [vm_compute; reflexivity|].
  apply (proj1 (tamper_mapping None (lit "Unknown") 0.1) _ eq_refl); reflexivity.
Defined.

Lemma found_and_owner_witness :
  ∃ v, classify None (lit "alice") 1.0 = inr v
       ∧ watermark_found v = true ∧ resp_owner_id v = Some (lit "alice").
Proof.
  eexists. split; [vm_compute; reflexivity|].
  apply (proj2 (proj2 (proj2 (proj2 (found_and_owner None (lit "alice") 1.0)))) _ eq_refl).
Defined.

End VerdictProperties.

(* ===================================================================== *)
(** ** Properties of the epsilon mapping *)
(* ===================================================================== *)

Section EpsilonProperties.
Local Open Scope float_scope.

Lemma SFcompare_antisym x y :
  SFcompare y x = option_map CompOpp (SFcompare x y).
Proof.
  destruct x as [sx|sx| |sx mx ex], y as [sy|sy| |sy my ey]; simpl;
    try destruct sx; try destruct sy; try reflexivity;
    rewrite (Z.compare_antisym ex ey); destruct (ex ?= ey)%Z; simpl; try reflexivity;
    rewrite (Pos.compare_cont_antisym mx my Eq); reflexivity.
Qed.

(** [s <= 1.0] excludes [s > 1.0]. *)
Lemma leb_not_gtb (a s : float) : (s <=? a) = true → (a <? s) = false.
Proof.
  rewrite leb_spec, ltb_spec. unfold SFleb, SFltb.
  rewrite (SFcompare_antisym (Prim2SF s) (Prim2SF a)).
  now destruct (SFcompare (Prim2SF s) (Prim2SF a)) as [[| |]|].
Qed.

(** C8.  Epsilon convention of [process_protection]: a strength of at
    most 1.0 is handed to the perturber unchanged; a strength above 1.0 is
    read on the 0-100 scale and becomes [strength / 100 * 0.05], which
    sends 100 to 0.05. *)
Theorem epsilon_convention (strength : float) :
  ((strength <=? 1.0) = true → epsilon_of strength = strength)
  ∧ ((1.0 <? strength) = true → epsilon_of strength = strength / 100.0 * 0.05)
  ∧ epsilon_of 100.0 = 0.05
  ∧ epsilon_of 1.0 = 1.0.
Proof.
  unfold epsilon_of. split; [|split; [|split]].
  - intros H. now rewrite (leb_not_gtb 1.0 strength H).
  - now intros ->.
  - reflexivity.
  - reflexivity.
Qed.

Lemma epsilon_convention_witness :
  (0.01 <=? 1.0) = true ∧ epsilon_of 0.01 = 0.01
  ∧ (1.0 <? 50.0) = true ∧ epsilon_of 50.0 = 50.0 / 100.0 * 0.05.
Proof.
  split; [reflexivity|]. split; [|split; [reflexivity|]].
  - apply (proj1 (epsilon_convention 0.01)). reflexivity.
  - apply (proj1 (proj2 (epsilon_convention 50.0))). reflexivity.
Defined.

End EpsilonProperties.

(* ===================================================================== *)
(** ** Further properties of the codec *)
(* ===================================================================== *)

Section CodecExtras.
Implicit Types h : heap.

Lemma marked_idem x b : 0 <= x < 256 → marked (marked x b) b = marked x b.
Proof.
  intros Hx. destruct (marked_byte x b Hx) as (E & Hr & _).
  destruct (marked_byte (marked x b) b Hr) as (E' & _ & _).
  rewrite E'. rewrite E at 1. rewrite E.
  replace ((2 * (x / 2) + Z.b2z b) / 2) with (x / 2); [reflexivity|].
  rewrite Z.add_comm, Z.mul_comm, Z.div_add by lia.
  rewrite (Z.div_small (Z.b2z b) 2) by (destruct b; simpl; lia). lia.
Qed.

Lemma set_lsbs_idem bits px : bytes px → set_lsbs bits (set_lsbs bits px) = set_lsbs bits px.
Proof.
  intros H. revert bits. induction H as [|x px Hx _ IH]; intros [|b bits]; simpl;
    try reflexivity.
  now rewrite marked_idem, IH.
Qed.

Lemma marked_near x b : 0 <= x < 256 → -1 <= marked x b - x <= 1.
Proof.
  intros Hx. destruct (marked_byte x b Hx) as (-> & _ & _).
  pose proof (Z.div_mod x 2 ltac:(lia)). pose proof (Z.mod_pos_bound x 2 ltac:(lia)).
  destruct b; simpl; lia.
Qed.

(** X1.  A successful embedding (a strength that the repetition of
    line 26 accepts, a bit string that fits the image) changes no sample
    by more than 1, and every sample of the returned image is a byte. *)
Theorem embed_changes_by_one h image px text strength :
  image_at h image px →
  - 2 ^ 63 <= strength →
  (length (binary_data_of text strength) <= length px)%nat →
  ∃ out bits h' px',
    embed_watermark_lsb image text strength h = (Ok (out, bits), h')
    ∧ h' !! im out = Some px'
    ∧ length px' = length px
    ∧ ∀ i x y, px !! i = Some x → px' !! i = Some y →
        0 <= y < 256 ∧ -1 <= y - x <= 1.
Proof.
  intros Himg Hlo Hle.
  pose proof (image_at_embedded h image px (binary_data_of text strength) Himg)
    as (Hout & _ & Hb' & _).
  eexists _, _, _, _.
  split; [exact (embed_ok h image px Himg text strength Hlo Hle)|].
  destruct Himg as (Hpx & Hsz & Hb & Hmax).
  split; [exact Hout|]. split; [apply set_lsbs_length|].
  intros i x y Hx Hy. pose proof (bytes_lookup px i x Hb Hx) as Hbx.
  split; [exact (bytes_lookup _ i y Hb' Hy)|].
  rewrite set_lsbs_lookup, Hx in Hy.
  destruct (binary_data_of text strength !! i) as [b|]; simpl in Hy; injection Hy as <-.
  - now apply marked_near.
  - lia.
Qed.

Lemma embed_changes_by_one_witness :
  image_at heap_4x4 (image_of 4 4) (blank 48)
  ∧ ∃ out bits h' px',
      embed_watermark_lsb (image_of 4 4) (lit "a") 1 heap_4x4 = (Ok (out, bits), h')
      ∧ h' !! im out = Some px' ∧ length px' = 48%nat.
Proof.
  assert (H : image_at heap_4x4 (image_of 4 4) (blank 48))
    by (apply image_at_check; vm_compute; reflexivity).
  split; [exact H|].
  destruct (embed_changes_by_one heap_4x4 (image_of 4 4) (blank 48) (lit "a") 1 H
              ltac:(lia) ltac:(vm_compute; lia))
    as (out & bits & h' & px' & He & Ho & Hl & _).
  exists out, bits, h', px'. auto.
Defined.

(** X2.  Embedding is idempotent on the pixel data: embedding the same
    text with the same strength into the image a successful embedding
    returned succeeds and gives the same samples. *)
Theorem embed_idempotent h image px text strength out bits h1 :
  image_at h image px →
  embed_watermark_lsb image text strength h = (Ok (out, bits), h1) →
  ∃ out2 h2,
    embed_watermark_lsb out text strength h1 = (Ok (out2, bits), h2)
    ∧ size out2 = size out
    ∧ h2 !! im out2 = h1 !! im out
    ∧ h2 !! im out = h1 !! im out.
Proof.
  intros Himg He.
  destruct (embed_inv h image px Himg text strength out bits h1 He) as [Hlo Hle].
  rewrite (embed_ok h image px Himg text strength Hlo Hle) in He.
  injection He as <- <- <-.
  pose proof (image_at_embedded h image px (binary_data_of text strength) Himg) as Hout.
  set (e := set_lsbs (binary_data_of text strength) px) in *.
  assert (Hle' : (length (binary_data_of text strength) <= length e)%nat)
    by (subst e; now rewrite set_lsbs_length).
  eexists _, _. split; [exact (embed_ok _ _ _ Hout text strength Hlo Hle')|].
  destruct Himg as (_ & _ & Hb & _). destruct Hout as (Ho & _ & _).
  fold e in Ho. cbn [im size] in *.
  split; [reflexivity|].
  subst e. rewrite (set_lsbs_idem _ _ Hb).
  set (e := set_lsbs (binary_data_of text strength) px) in *.
  set (h1 := h ++ [px; e; e; e; e]) in *.
  assert (Hlt : (length h + 4 < length h1)%nat)
    by (subst h1; rewrite length_app; simpl; lia).
  split.
  - rewrite Ho, lookup_app_r by lia.
    now replace (length h1 + 4 - length h1)%nat with 4%nat by lia.
  - now rewrite lookup_app_l.
Qed.

Lemma embed_idempotent_witness :
  ∃ out bits h1 out2 h2,
    embed_watermark_lsb (image_of 4 4) (lit "a") 1 heap_4x4 = (Ok (out, bits), h1)
    ∧ embed_watermark_lsb out (lit "a") 1 h1 = (Ok (out2, bits), h2)
    ∧ h2 !! im out2 = h1 !! im out.
Proof.
  assert (H : image_at heap_4x4 (image_of 4 4) (blank 48))
    by (apply image_at_check; vm_compute; reflexivity).
  eexists _, _, _.
  assert (He : embed_watermark_lsb (image_of 4 4) (lit "a") 1 heap_4x4
               = (Ok (_, _), _))
    by exact (embed_ok _ _ _ H (lit "a") 1 ltac:(lia) ltac:(vm_compute; lia)).
  destruct (embed_idempotent _ _ _ _ _ _ _ _ H He) as (out2 & h2 & E2 & _ & E3 & _).
  exists out2, h2. split; [exact He|]. split; [exact E2|exact E3].
Defined.

(** X3.  A strength of 0 or less never meets the capacity check.  From
    [-2^63] to 0 the bit string is empty: embedding succeeds on every
    image, returns the empty bit string and a copy with the samples of
    the input, so extraction answers on the copy what it answers on the
    input.  Below [-2^63] the repetition of line 26 raises OverflowError
    before anything is allocated. *)
Theorem embed_nonpositive_strength h image px text strength :
  image_at h image px →
  strength <= 0 →
  (- 2 ^ 63 <= strength →
     ∃ out h',
       embed_watermark_lsb image text strength h = (Ok (out, []), h')
       ∧ h' !! im out = Some px
       ∧ size out = size image
       ∧ fst (extract_watermark_lsb out h') = fst (extract_watermark_lsb image h))
  ∧ (strength < - 2 ^ 63 →
       embed_watermark_lsb image text strength h = (Raise OverflowError, h)).
Proof.
  intros Himg Hs. split.
  - intros Hlo.
    assert (Eb : binary_data_of text strength = []).
    { unfold binary_data_of. now replace (Z.to_nat strength) with O by lia. }
    pose proof (embed_ok h image px Himg text strength Hlo) as He.
    pose proof (image_at_embedded h image px (binary_data_of text strength) Himg) as Hout.
    rewrite Eb in He, Hout. cbn zeta in He. rewrite !set_lsbs_nil in He, Hout.
    eexists _, _. split; [apply He; simpl; lia|].
    split; [apply Hout|]. split; [reflexivity|].
    now rewrite (extract_run _ _ _ Hout), (extract_run _ _ _ Himg).
  - intros Hlt. apply embed_run_overflow. unfold mul_seq.
    destruct (Z.ltb_spec strength (- 2 ^ 63)); [reflexivity|lia].
Qed.

Lemma embed_nonpositive_strength_witness :
  ∃ out h',
    embed_watermark_lsb (image_of 4 4) (lit "alice") 0 heap_4x4 = (Ok (out, []), h')
    ∧ h' !! im out = Some (blank 48).
Proof.
  assert (H : image_at heap_4x4 (image_of 4 4) (blank 48))
    by (apply image_at_check; vm_compute; reflexivity).
  destruct (embed_nonpositive_strength _ _ _ (lit "alice") 0 H ltac:(lia)) as [Hr _].
  destruct (Hr ltac:(lia)) as (out & h' & He & Ho & _).
  exists out, h'. split; [exact He|exact Ho].
Defined.

(** X5.  Extraction needs only the least-significant bits of the
    payload's samples: every image whose first [8 * (len(text) + 4)]
    least-significant bits are the digits of [text + "@@@@"], for a text
    of one-byte characters whose first delimiter is the appended one and
    that fits the scan window, extracts [text] with match ratio 1.0,
    whatever its other bits and later samples hold. *)
Theorem extract_needs_payload_bits h image px text :
  image_at h image px →
  latin1 text →
  delimiter_free text →
  (8 * (length text + 4) <= scan_cap)%nat →
  map lsb (take (8 * (length text + 4)) px) = to_binary (text ++ delimiter) →
  fst (extract_watermark_lsb image h) = Ok (text, 1.0%float).
Proof.
  intros Himg Hl Hd Hw Hbits.
  rewrite (extract_run _ _ _ Himg). cbn [fst]. f_equal.
  unfold window.
  rewrite <- (take_drop (8 * (length text + 4)) (take scan_cap px)), map_app.
  rewrite take_take, Nat.min_l, Hbits by lia.
  now apply decode_embedded.
Qed.

Lemma extract_needs_payload_bits_witness :
  let px := bits_at 0 (to_binary (lit "a" ++ delimiter)) in
  image_at [px] (image_of 16 16) px
  ∧ fst (extract_watermark_lsb (image_of 16 16) [px]) = Ok (lit "a", 1.0%float).
Proof.
  assert (H : image_at [bits_at 0 (to_binary (lit "a" ++ delimiter))] (image_of 16 16)
                (bits_at 0 (to_binary (lit "a" ++ delimiter))))
    by (apply image_at_check; vm_compute; reflexivity).
  split; [exact H|].
  apply (extract_needs_payload_bits _ _ _ (lit "a") H).
  - apply latin1b_latin1. reflexivity.
  - reflexivity.
  - unfold scan_cap. change (length (lit "a")) with 1%nat. lia.
  - vm_compute. reflexivity.
Defined.

(** X6.  Extraction never raises on a well-formed image and never writes
    to a buffer that existed before the call; repeated on the heap it
    leaves, it gives the same answer. *)
Theorem extract_reads_only h image px :
  image_at h image px →
  ∃ answer h',
    extract_watermark_lsb image h = (Ok answer, h')
    ∧ (∀ l, (l < length h)%nat → h' !! l = h !! l)
    ∧ fst (extract_watermark_lsb image h') = Ok answer.
Proof.
  intros Himg. exists (decode (window px)), (h ++ [px; px]).
  split; [exact (extract_run _ _ _ Himg)|]. split.
  - intros l Hl. now rewrite lookup_app_l.
  - assert (Himg' : image_at (h ++ [px; px]) image px).
    { destruct Himg as (Hpx & Hsz & Hb & Hmax). repeat split; auto.
      rewrite lookup_app_l; [exact Hpx|]. now apply lookup_lt_Some in Hpx. }
    now rewrite (extract_run _ _ _ Himg').
Qed.

Lemma extract_reads_only_witness :
  ∃ answer h',
    extract_watermark_lsb (image_of 4 4) heap_4x4 = (Ok answer, h')
    ∧ fst (extract_watermark_lsb (image_of 4 4) h') = Ok answer.
Proof.
  assert (H : image_at heap_4x4 (image_of 4 4) (blank 48))
    by (apply image_at_check; vm_compute; reflexivity).
  destruct (extract_reads_only _ _ _ H) as (a & h' & E & _ & E').
  exists a, h'. split; [exact E|exact E'].
Defined.

End CodecExtras.

Section StripProperties.
Import Pil Stripping.
Implicit Types h : heap.

Lemma samples_pixels n : ∀ px, length px = (n * 3)%nat → samples (pixels px) = px.
Proof.
  induction n as [|n IH]; intros px Hl.
  - now destruct px.
  - destruct px as [|r [|g [|b rest]]]; simpl in Hl; try lia.
    simpl. rewrite IH by lia. reflexivity.
Qed.

Lemma pixels_length n : ∀ px, length px = (n * 3)%nat → length (pixels px) = n.
Proof.
  induction n as [|n IH]; intros px Hl.
  - now destruct px.
  - destruct px as [|r [|g [|b rest]]]; simpl in Hl; try lia.
    simpl. rewrite IH by lia. reflexivity.
Qed.

Lemma clip8_bytes px : bytes px → map clip8 px = px.
Proof.
  induction 1 as [|x px Hx _ IH]; [reflexivity|]. simpl. rewrite IH.
  f_equal. unfold clip8. lia.
Qed.

(** The function copies the samples into a fresh image of the same size. *)
Lemma strip_run h image px :
  image_at h image px →
  strip_metadata_from_image image h
  = (Ok {| size := size image; im := length h |}, h ++ [px]).
Proof.
  intros (Hpx & Hsz & Hb & _). unfold strip_metadata_from_image, getdata, new.
  rewrite (bind_ok _ _ h (pixels px) h)
    by now rewrite (bind_ok _ _ _ _ _ (contents_run _ _ _ Hpx)).
  set (n := (snd (size image) * fst (size image))%nat) in *.
  rewrite (bind_ok _ _ h {| size := size image; im := length h |}
             (h ++ [replicate (n * 3) 0])) by reflexivity.
  unfold bind, putdata, ret. cbn [size im].
  fold n. rewrite (pixels_length n px Hsz).
  destruct (Nat.ltb_spec n n); [lia|].
  rewrite lookup_alloc. cbn [default]. rewrite insert_alloc.
  rewrite (samples_pixels n px Hsz), (clip8_bytes px Hb).
  unfold id. rewrite drop_ge by (rewrite length_replicate; lia).
  now rewrite app_nil_r.
Qed.

(** X7.  [strip_metadata_from_image] returns an image of the same size
    with the same samples in a buffer of its own, leaves the input image
    as it was, and keeps the watermark: extraction answers on the
    stripped image what it answers on the input. *)
Theorem strip_keeps_pixels h image px :
  image_at h image px →
  ∃ out h',
    strip_metadata_from_image image h = (Ok out, h')
    ∧ image_at h' out px
    ∧ size out = size image
    ∧ im out ≠ im image
    ∧ h' !! im image = Some px
    ∧ fst (extract_watermark_lsb out h') = fst (extract_watermark_lsb image h).
Proof.
  intros Himg. pose proof (strip_run h image px Himg) as Hs.
  destruct Himg as (Hpx & Hsz & Hb & Hmax). apply lookup_lt_Some in Hpx as Hlt.
  assert (Hout : image_at (h ++ [px]) {| size := size image; im := length h |} px).
  { repeat split; auto. apply lookup_alloc. }
  eexists _, _. split; [exact Hs|]. split; [exact Hout|].
  split; [reflexivity|]. split; [cbn [im]; lia|].
  split; [now rewrite lookup_app_l|].
  now rewrite (extract_run _ _ _ Hout), (extract_run _ _ _ (conj Hpx (conj Hsz (conj Hb Hmax)))).
Qed.

Lemma strip_keeps_pixels_witness :
  ∃ out h',
    strip_metadata_from_image (image_of 4 4) heap_4x4 = (Ok out, h')
    ∧ image_at h' out (blank 48).
Proof.
  assert (H : image_at heap_4x4 (image_of 4 4) (blank 48))
    by (apply image_at_check; vm_compute; reflexivity).
  destruct (strip_keeps_pixels _ _ _ H) as (out & h' & E & Ho & _).
  exists out, h'. split; [exact E|exact Ho].
Defined.

(** X4.  The last identifier embedded is the one extracted: after any
    successful embedding, embedding a second identifier (of one-byte
    characters, whose first delimiter is the appended one, fitting the
    scan window and the image, with a strength of at least 1) into the
    returned image and extracting gives the second identifier. *)
Theorem embed_overwrites h image px text1 strength1 out bits1 h1 text2 strength2 :
  image_at h image px →
  embed_watermark_lsb image text1 strength1 h = (Ok (out, bits1), h1) →
  latin1 text2 →
  delimiter_free text2 →
  1 <= strength2 →
  (8 * (length text2 + 4) <= scan_cap)%nat →
  (length (binary_data_of text2 strength2) <= length px)%nat →
  fst (extract_after_embed out text2 strength2 h1) = Ok (text2, 1.0%float).
Proof.
  intros Himg He Hl Hd Hs Hw Hfit.
  destruct (embed_inv h image px Himg text1 strength1 _ _ _ He) as [Hlo Hle].
  rewrite (embed_ok h image px Himg text1 strength1 Hlo Hle) in He.
  injection He as <- <- <-.
  pose proof (image_at_embedded h image px (binary_data_of text1 strength1) Himg) as Hout.
  rewrite (extract_after_embed_run _ _ _ text2 strength2 Hout)
    by first [lia|now rewrite set_lsbs_length].
  destruct (binary_data_head text2 strength2 Hs) as [rest ->].
  rewrite <- app_assoc, take_app_ge.
  2:{ rewrite to_binary_length by now apply latin1_data. rewrite length_app. simpl. lia. }
  now rewrite decode_embedded.
Qed.

Lemma embed_overwrites_witness :
  ∃ out bits1 h1,
    embed_watermark_lsb (image_of 4 4) (lit "ab") 1 heap_4x4 = (Ok (out, bits1), h1)
    ∧ fst (extract_after_embed out (lit "c") 1 h1) = Ok (lit "c", 1.0%float).
Proof.
  assert (H : image_at heap_4x4 (image_of 4 4) (blank 48))
    by (apply image_at_check; vm_compute; reflexivity).
  eexists _, _, _.
  assert (He : embed_watermark_lsb (image_of 4 4) (lit "ab") 1 heap_4x4
               = (Ok (_, _), _))
    by exact (embed_ok _ _ _ H (lit "ab") 1 ltac:(lia) ltac:(vm_compute; lia)).
  split; [exact He|].
  apply (embed_overwrites _ _ _ _ _ _ _ _ (lit "c") 1 H He).
  - apply latin1b_latin1. reflexivity.
  - reflexivity.
  - lia.
  - unfold scan_cap. change (length (lit "c")) with 1%nat. lia.
  - vm_compute. lia.
Defined.

End StripProperties.

(* ===================================================================== *)
(** ** Verification and detection of an image *)
(* ===================================================================== *)

Section VerifyExtras.
Import Http Detect.
Implicit Types h : heap.
Local Open Scope float_scope.

(** The four verdicts on the match ratios extraction produces. *)
Lemma classify_found_1 record text :
  found_rule record text 1.0 = true →
  classify record text 1.0
  = inr {| watermark_found := true; resp_owner_id := owner_rule record text;
           confidence := 100; tamper_status := "intact";
           extracted_text := text; match_ratio := 1.0 |}.
Proof. intros H. unfold classify. rewrite H. reflexivity. Qed.

Lemma classify_missed_1 record text :
  found_rule record text 1.0 = false →
  classify record text 1.0
  = inr {| watermark_found := false; resp_owner_id := owner_rule record text;
           confidence := 100; tamper_status := "modified";
           extracted_text := text; match_ratio := 1.0 |}.
Proof. intros H. unfold classify. rewrite H. reflexivity. Qed.

Lemma classify_found_01 record text :
  found_rule record text 0.1 = true →
  classify record text 0.1
  = inr {| watermark_found := true; resp_owner_id := owner_rule record text;
           confidence := 50; tamper_status := "modified";
           extracted_text := text; match_ratio := 0.1 |}.
Proof. intros H. unfold classify. rewrite H. reflexivity. Qed.

Lemma classify_missed_01 record text :
  found_rule record text 0.1 = false →
  classify record text 0.1
  = inr {| watermark_found := false; resp_owner_id := owner_rule record text;
           confidence := 4; tamper_status := "no watermark";
           extracted_text := text; match_ratio := 0.1 |}.
Proof. intros H. unfold classify. rewrite H. reflexivity. Qed.

(** Extraction answers a text with ratio 1.0, or the sentinel with 0.1. *)
Lemma decode_cases bits :
  (∃ text, decode bits = (text, 1.0)) ∨ decode bits = (lit "Unknown", 0.1).
Proof. rewrite decode_spec. cbn zeta. destruct (contains delimiter _); eauto. Qed.

Lemma verify_image_run store h image px :
  image_at h image px →
  verify_image store image h
  = (match classify (store (fst (decode (window px)))) (fst (decode (window px)))
                    (snd (decode (window px))) with
     | inl e => Raise e
     | inr v => Ok v
     end, h ++ [px; px]).
Proof.
  intros Himg. unfold verify_image.
  rewrite (bind_ok _ _ _ _ _ (extract_run h image px Himg)).
  destruct (decode (window px)) as [text ratio]. cbn [fst snd].
  now destruct (classify (store text) text ratio).
Qed.

Lemma decode_after_embed h image px text strength :
  image_at h image px → latin1 text → delimiter_free text → 1 <= strength →
  (8 * (length text + 4) <= scan_cap)%nat →
  (length (binary_data_of text strength) <= length px)%nat →
  decode (window (set_lsbs (binary_data_of text strength) px)) = (text, 1.0).
Proof.
  intros (_ & _ & Hb & _) Hl Hd Hs Hw Hfit.
  rewrite window_set_lsbs by assumption.
  destruct (binary_data_head text strength Hs) as [rest ->].
  rewrite <- app_assoc, take_app_ge.
  2:{ rewrite to_binary_length by now apply latin1_data. rewrite length_app. simpl. lia. }
  now apply decode_embedded.
Qed.

(** X8.  Embedding followed by verification: for an identifier other
    than "Unknown" that meets the round trip's conditions, the verdict on
    the embedded image is found, with the owner of the stored record if
    the store has one for the identifier and the identifier itself
    otherwise, confidence 100 and status "intact". *)
Theorem verify_after_embed store h image px text strength out bits h1 :
  image_at h image px →
  latin1 text →
  delimiter_free text →
  text ≠ lit "Unknown" →
  1 <= strength →
  (8 * (length text + 4) <= scan_cap)%nat →
  embed_watermark_lsb image text strength h = (Ok (out, bits), h1) →
  fst (verify_image store out h1)
  = Ok {| watermark_found := true;
          resp_owner_id := Some (match store text with
                                 | Some r => owner_id r
                                 | None => text
                                 end);
          confidence := 100;
          tamper_status := "intact";
          extracted_text := text;
          match_ratio := 1.0 |}.
Proof.
  intros Himg Hl Hd Hu Hs Hw He.
  destruct (embed_inv h image px Himg text strength _ _ _ He) as [Hlo Hle].
  rewrite (embed_ok h image px Himg text strength Hlo Hle) in He.
  injection He as <- <- <-.
  rewrite (verify_image_run store _ _ _ (image_at_embedded h image px _ Himg)).
  rewrite (decode_after_embed h image px text strength) by assumption.
  cbn [fst snd].
  assert (Hf : found_rule (store text) text 1.0 = true).
  { unfold found_rule. rewrite (bool_decide_eq_true_2 _ Hu). apply orb_true_r. }
  rewrite (classify_found_1 _ _ Hf). do 2 f_equal.
  unfold owner_rule. rewrite (bool_decide_eq_true_2 _ Hu). now destruct (store text).
Qed.

Lemma verify_after_embed_witness :
  ∃ out bits h1 v,
    embed_watermark_lsb (image_of 4 4) (lit "a") 1 heap_4x4 = (Ok (out, bits), h1)
    ∧ fst (verify_image (λ _, None) out h1) = Ok v
    ∧ confidence v = 100%Z ∧ tamper_status v = "intact"%string.
Proof.
  assert (H : image_at heap_4x4 (image_of 4 4) (blank 48))
    by (apply image_at_check; vm_compute; reflexivity).
  eexists _, _, _, _.
  assert (He : embed_watermark_lsb (image_of 4 4) (lit "a") 1 heap_4x4
               = (Ok (_, _), _))
    by exact (embed_ok _ _ _ H (lit "a") 1 ltac:(lia) ltac:(vm_compute; lia)).
  split; [exact He|]. split.
  - refine (verify_after_embed (λ _, None) _ _ _ (lit "a") 1 _ _ _ H _ _ _ _ _ He).
    + apply latin1b_latin1. reflexivity.
    + reflexivity.
    + discriminate.
    + lia.
    + unfold scan_cap. change (length (lit "a")) with 1%nat. lia.
  - split; reflexivity.
Defined.

(** X9.  The verdicts [verify_image] can reach.  On every well-formed
    image it returns, and its verdict is one of four: match ratio 1.0 with
    confidence 100, "intact" when found and "modified" when not; or match
    ratio 0.1 with the text "Unknown", and then confidence 50 and
    "modified" when the store has a record for it, confidence 4 and
    "no watermark" when it has none.  The branch for ratios between 0.7
    and 0.9 is never taken. *)
Theorem verify_image_verdicts store h image px :
  image_at h image px →
  ∃ v, fst (verify_image store image h) = Ok v
    ∧ ((match_ratio v = 1.0 ∧ confidence v = 100%Z
        ∧ tamper_status v = (if watermark_found v then "intact" else "modified")%string)
       ∨ (match_ratio v = 0.1 ∧ extracted_text v = lit "Unknown"
          ∧ watermark_found v = bool_decide (store (lit "Unknown") ≠ None)
          ∧ confidence v = (if watermark_found v then 50 else 4)%Z
          ∧ tamper_status v
            = (if watermark_found v then "modified" else "no watermark")%string)).
Proof.
  intros Himg. rewrite (verify_image_run store h image px Himg). cbn [fst].
  destruct (decode_cases (window px)) as [[text ->] | ->]; cbn [fst snd].
  - destruct (found_rule (store text) text 1.0) eqn:F.
    + rewrite (classify_found_1 _ _ F). eexists. split; [reflexivity|]. left. auto.
    + rewrite (classify_missed_1 _ _ F). eexists. split; [reflexivity|]. left. auto.
  - assert (F : found_rule (store (lit "Unknown")) (lit "Unknown") 0.1
                = bool_decide (store (lit "Unknown") ≠ None)).
    { unfold found_rule. change (0.5 <? 0.1) with false. apply orb_false_r. }
    destruct (bool_decide (store (lit "Unknown") ≠ None)) eqn:B.
    + rewrite (classify_found_01 _ _ F). eexists. split; [reflexivity|]. right.
      cbn. auto.
    + rewrite (classify_missed_01 _ _ F). eexists. split; [reflexivity|]. right.
      cbn. auto.
Qed.

Lemma verify_image_verdicts_witness :
  ∃ v, fst (verify_image (λ _, None) (image_of 4 4) heap_4x4) = Ok v
       ∧ confidence v = 4%Z.
Proof.
  assert (H : image_at heap_4x4 (image_of 4 4) (blank 48))
    by (apply image_at_check; vm_compute; reflexivity).
  destruct (verify_image_verdicts (λ _, None) _ _ _ H) as (v & Hv & _).
  exists v. split; [exact Hv|].
  vm_compute in Hv. injection Hv as <-. reflexivity.
Defined.

End VerifyExtras.

Section DetectExtras.
Import Http Detect Uploads.
Implicit Types h : heap.
Local Open Scope float_scope.

Lemma detect_watermark_run str_of store h image px :
  image_at h image px →
  detect_watermark str_of store image h
  = (Respond (detection store (fst (decode (window px))) (snd (decode (window px)))),
     h ++ [px; px]).
Proof.
  intros Himg. unfold detect_watermark. rewrite (extract_run h image px Himg).
  now destruct (decode (window px)).
Qed.

(** A text other than "Unknown" read with ratio 1.0 is a watermark,
    whatever the store holds. *)
Lemma detection_text store text :
  text ≠ lit "Unknown" →
  detection store text 1.0
  = {| has_watermark := true;
       det_extracted_text := text;
       det_match_ratio := 1.0;
       message := lit "Image already contains a watermark. Owner ID: " ++ text
                    ++ lit ". Cannot re-watermark." |}.
Proof.
  intros Hu. unfold detection. rewrite !(bool_decide_eq_true_2 _ Hu).
  change (0.5 <? 1.0) with true. reflexivity.
Qed.

(** The text "Unknown" is no watermark, whatever the ratio and the store. *)
Lemma detection_unknown store ratio :
  detection store (lit "Unknown") ratio
  = {| has_watermark := false;
       det_extracted_text := [];
       det_match_ratio := ratio;
       message := lit "Image is clean and ready to be watermarked." |}.
Proof.
  unfold detection.
  rewrite !(bool_decide_eq_false_2 (lit "Unknown" ≠ lit "Unknown")) by (intros H; now apply H).
  rewrite andb_false_r. reflexivity.
Qed.

(** X11.  [detect_watermark] answers without the record store: on every
    well-formed image it responds (never the status 500), the response is
    the same for every store, and it reports a watermark exactly when the
    characters decoded from the scan window contain the delimiter and the
    text before its first occurrence is not "Unknown". *)
Theorem detect_ignores_store str_of store h image px :
  image_at h image px →
  let decoded := map group_char (all_bytes_of (map lsb (take scan_cap px))) in
  ∃ r h',
    detect_watermark str_of store image h = (Respond r, h')
    ∧ (∀ store2, detect_watermark str_of store2 image h = (Respond r, h'))
    ∧ (has_watermark r = true
       ↔ ∃ i, find delimiter decoded = Some i ∧ take i decoded ≠ lit "Unknown").
Proof.
  intros Himg decoded.
  assert (Hd : decode (window px)
               = match find delimiter decoded with
                 | Some i => (take i decoded, 1.0)
                 | None => (lit "Unknown", 0.1)
                 end).
  { rewrite decode_spec. cbn zeta. unfold window, contains, split_head. fold decoded.
    now destruct (find delimiter decoded). }
  assert (Hr : ∀ st, detect_watermark str_of st image h
                     = (Respond (detection store (fst (decode (window px)))
                                           (snd (decode (window px)))), h ++ [px; px])).
  { intros st. rewrite (detect_watermark_run str_of st h image px Himg). do 2 f_equal.
    rewrite Hd. destruct (find delimiter decoded) as [i|]; cbn [fst snd].
    - destruct (decide (take i decoded = lit "Unknown")) as [->|Hu].
      + now rewrite !detection_unknown.
      + now rewrite !detection_text.
    - now rewrite !detection_unknown. }
  eexists _, _. split; [apply Hr|]. split; [intros st; apply Hr|].
  rewrite Hd. destruct (find delimiter decoded) as [i|]; cbn [fst snd].
  - destruct (decide (take i decoded = lit "Unknown")) as [E|Hu].
    + rewrite E, detection_unknown. cbn [has_watermark]. split; [discriminate|].
      intros (j & Hj1 & Hj). congruence.
    + rewrite (detection_text _ _ Hu). cbn [has_watermark]. split; eauto.
  - rewrite detection_unknown. cbn [has_watermark]. split; [discriminate|].
    now intros (j & [=] & _).
Qed.

Lemma detect_ignores_store_witness :
  ∃ r h',
    detect_watermark (λ _, []) (λ _, None) (image_of 4 4) heap_4x4 = (Respond r, h')
    ∧ ∀ store2, detect_watermark (λ _, []) store2 (image_of 4 4) heap_4x4 = (Respond r, h').
Proof.
  assert (H : image_at heap_4x4 (image_of 4 4) (blank 48))
    by (apply image_at_check; vm_compute; reflexivity).
  destruct (detect_ignores_store (λ _, []) (λ _, None) _ _ _ H) as (r & h' & E & E2 & _).
  exists r, h'. split; [exact E|exact E2].
Defined.

(** X12.  Embedding followed by detection: for an identifier other than
    "Unknown" that meets the round trip's conditions, detection on the
    embedded image reports a watermark, returns the identifier as the
    extracted text and names it in the message. *)
Theorem detect_after_embed str_of store h image px text strength out bits h1 :
  image_at h image px →
  latin1 text →
  delimiter_free text →
  text ≠ lit "Unknown" →
  1 <= strength →
  (8 * (length text + 4) <= scan_cap)%nat →
  embed_watermark_lsb image text strength h = (Ok (out, bits), h1) →
  fst (detect_watermark str_of store out h1)
  = Respond {| has_watermark := true;
               det_extracted_text := text;
               det_match_ratio := 1.0;
               message := lit "Image already contains a watermark. Owner ID: " ++ text
                            ++ lit ". Cannot re-watermark." |}.
Proof.
  intros Himg Hl Hd Hu Hs Hw He.
  destruct (embed_inv h image px Himg text strength _ _ _ He) as [Hlo Hle].
  rewrite (embed_ok h image px Himg text strength Hlo Hle) in He.
  injection He as <- <- <-.
  rewrite (detect_watermark_run str_of store _ _ _ (image_at_embedded h image px _ Himg)).
  rewrite (decode_after_embed h image px text strength) by assumption.
  cbn [fst snd]. now rewrite detection_text.
Qed.

Lemma detect_after_embed_witness :
  ∃ out bits h1 r,
    embed_watermark_lsb (image_of 4 4) (lit "a") 1 heap_4x4 = (Ok (out, bits), h1)
    ∧ fst (detect_watermark (λ _, []) (λ _, None) out h1) = Respond r
    ∧ has_watermark r = true.
Proof.
  assert (H : image_at heap_4x4 (image_of 4 4) (blank 48))
    by (apply image_at_check; vm_compute; reflexivity).
  eexists _, _, _, _.
  assert (He : embed_watermark_lsb (image_of 4 4) (lit "a") 1 heap_4x4
               = (Ok (_, _), _))
    by exact (embed_ok _ _ _ H (lit "a") 1 ltac:(lia) ltac:(vm_compute; lia)).
  split; [exact He|]. split.
  - refine (detect_after_embed (λ _, []) (λ _, None) _ _ _ (lit "a") 1 _ _ _
              H _ _ _ _ _ He).
    + apply latin1b_latin1. reflexivity.
    + reflexivity.
    + discriminate.
    + lia.
    + unfold scan_cap. change (length (lit "a")) with 1%nat. lia.
  - reflexivity.
Defined.

(** X10.  The identifier "Unknown" collides with the sentinel: embedded
    with a strength of at least 1 in an image it fits, it is read back
    with match ratio 1.0, and yet, when the store has no record for it,
    verification answers not found, without owner, with status
    "modified" (and confidence 100), and detection answers that the image
    is clean. *)
Theorem unknown_identifier_is_not_found str_of store h image px strength out bits h1 :
  image_at h image px →
  1 <= strength →
  store (lit "Unknown") = None →
  embed_watermark_lsb image (lit "Unknown") strength h = (Ok (out, bits), h1) →
  fst (verify_image store out h1)
  = Ok {| watermark_found := false;
          resp_owner_id := None;
          confidence := 100;
          tamper_status := "modified";
          extracted_text := lit "Unknown";
          match_ratio := 1.0 |}
  ∧ fst (detect_watermark str_of store out h1)
    = Respond {| has_watermark := false;
                 det_extracted_text := [];
                 det_match_ratio := 1.0;
                 message := lit "Image is clean and ready to be watermarked." |}.
Proof.
  intros Himg Hs Hst He.
  destruct (embed_inv h image px Himg (lit "Unknown") strength _ _ _ He) as [Hlo Hle].
  rewrite (embed_ok h image px Himg (lit "Unknown") strength Hlo Hle) in He.
  injection He as <- <- <-.
  pose proof (image_at_embedded h image px (binary_data_of (lit "Unknown") strength) Himg)
    as Hout.
  assert (Hdec : decode (window (set_lsbs (binary_data_of (lit "Unknown") strength) px))
                 = (lit "Unknown", 1.0)).
  { apply (decode_after_embed h image px); auto.
    - apply latin1b_latin1. reflexivity.
    - reflexivity.
    - unfold scan_cap. change (length (lit "Unknown")) with 7%nat. lia. }
  split.
  - rewrite (verify_image_run store _ _ _ Hout), Hdec. cbn [fst snd]. rewrite Hst.
    reflexivity.
  - rewrite (detect_watermark_run str_of store _ _ _ Hout), Hdec. cbn [fst snd].
    now rewrite detection_unknown.
Qed.

Lemma unknown_identifier_is_not_found_witness :
  ∃ out bits h1 v,
    embed_watermark_lsb (image_of 16 16) (lit "Unknown") 1 [blank 768] = (Ok (out, bits), h1)
    ∧ fst (verify_image (λ _, None) out h1) = Ok v
    ∧ watermark_found v = false.
Proof.
  assert (H : image_at [blank 768] (image_of 16 16) (blank 768))
    by (apply image_at_check; vm_compute; reflexivity).
  eexists _, _, _, _.
  assert (He : embed_watermark_lsb (image_of 16 16) (lit "Unknown") 1 [blank 768]
               = (Ok (_, _), _))
    by exact (embed_ok _ _ _ H (lit "Unknown") 1 ltac:(lia) ltac:(vm_compute; lia)).
  split; [exact He|]. split.
  - refine (proj1 (unknown_identifier_is_not_found (λ _, []) (λ _, None) _ _ _ 1 _ _ _
                     H _ eq_refl He)). lia.
  - reflexivity.
Defined.

(** X13.  Detection and verification of the same image with the same
    store: both return; when detection reports a watermark, verification
    reports it found, "intact", with confidence 100; and verification
    reports found where detection reports none only for the extracted
    text "Unknown" with a stored record for it. *)
Theorem detect_and_verify_agree str_of store h image px :
  image_at h image px →
  ∃ r v,
    fst (detect_watermark str_of store image h) = Respond r
    ∧ fst (verify_image store image h) = Ok v
    ∧ det_match_ratio r = match_ratio v
    ∧ (has_watermark r = true →
         watermark_found v = true ∧ tamper_status v = "intact"%string
         ∧ confidence v = 100%Z ∧ extracted_text v = det_extracted_text r)
    ∧ (watermark_found v = true → has_watermark r = false →
         extracted_text v = lit "Unknown" ∧ store (lit "Unknown") ≠ None).
Proof.
  intros Himg.
  rewrite (detect_watermark_run str_of store h image px Himg),
          (verify_image_run store h image px Himg). cbn [fst].
  destruct (decode_cases (window px)) as [[text ->] | ->]; cbn [fst snd].
  - destruct (decide (text = lit "Unknown")) as [->|Hu].
    + rewrite detection_unknown.
      destruct (found_rule (store (lit "Unknown")) (lit "Unknown") 1.0) eqn:F.
      * rewrite (classify_found_1 _ _ F). eexists _, _. repeat split; try discriminate.
        unfold found_rule in F.
        rewrite (bool_decide_eq_false_2 (lit "Unknown" ≠ lit "Unknown")) in F
          by (intros HH; now apply HH).
        rewrite andb_false_r, orb_false_r in F. now apply bool_decide_eq_true in F.
      * rewrite (classify_missed_1 _ _ F). eexists _, _. repeat split; discriminate.
    + rewrite (detection_text _ _ Hu).
      assert (F : found_rule (store text) text 1.0 = true).
      { unfold found_rule. rewrite (bool_decide_eq_true_2 _ Hu). apply orb_true_r. }
      rewrite (classify_found_1 _ _ F). eexists _, _. repeat split; discriminate.
  - rewrite detection_unknown.
    destruct (found_rule (store (lit "Unknown")) (lit "Unknown") 0.1) eqn:F.
    + rewrite (classify_found_01 _ _ F). eexists _, _. repeat split; try discriminate.
      unfold found_rule in F. change (0.5 <? 0.1) with false in F.
      rewrite orb_false_r in F. now apply bool_decide_eq_true in F.
    + rewrite (classify_missed_01 _ _ F). eexists _, _. repeat split; discriminate.
Qed.

Lemma detect_and_verify_agree_witness :
  ∃ r v,
    fst (detect_watermark (λ _, []) (λ _, None) (image_of 4 4) heap_4x4) = Respond r
    ∧ fst (verify_image (λ _, None) (image_of 4 4) heap_4x4) = Ok v
    ∧ det_match_ratio r = match_ratio v.
Proof.
  assert (H : image_at heap_4x4 (image_of 4 4) (blank 48))
    by (apply image_at_check; vm_compute; reflexivity).
  destruct (detect_and_verify_agree (λ _, []) (λ _, None) _ _ _ H)
    as (r & v & E1 & E2 & E3 & _).
  exists r, v. auto.
Defined.

Lemma validate_accepts (content_type : option (list N)) :
  validate_image_upload content_type = Respond tt
  ↔ ∃ s, content_type = Some s ∧ starts_with (lit "image/") s = true.
Proof.
  unfold validate_image_upload.
  destruct content_type as [[|c s]|]; cbn [truthy default from_option id negb orb].
  - split; [discriminate|]. intros (s & [= <-] & Hs). discriminate.
  - destruct (starts_with (lit "image/") (c :: s)) eqn:E; cbn [negb].
    + split; [eauto|reflexivity].
    + split; [discriminate|]. intros (s' & [= <-] & Hs). congruence.
  - split; [discriminate|]. intros (s & [=] & _).
Qed.

Lemma protection_accepts (content_type : option (list N)) :
  process_protection_check content_type = Respond tt
  ↔ content_type = None ∨ content_type = Some []
    ∨ ∃ s, content_type = Some s ∧ starts_with (lit "image/") s = true.
Proof.
  unfold process_protection_check.
  destruct content_type as [[|c s]|]; cbn [truthy default from_option id negb andb].
  - split; auto.
  - destruct (starts_with (lit "image/") (c :: s)) eqn:E; cbn [negb].
    + split; [eauto|reflexivity].
    + split; [discriminate|].
      intros [Hn|[Hn|(s' & [= <-] & Hs)]]; congruence.
  - split; auto.
Qed.

(** X14.  The two content-type tests.  [validate_image_upload] accepts
    exactly the uploads whose content type starts with "image/"; the test
    of [process_protection] rejects exactly the non-empty content types
    that do not.  So every upload the first accepts the second accepts,
    and they differ exactly on a missing or empty content type, which the
    first rejects with status 400 and the second lets through. *)
Theorem content_type_tests (content_type : option (list N)) :
  (validate_image_upload content_type = Respond tt
     ↔ ∃ s, content_type = Some s ∧ starts_with (lit "image/") s = true)
  ∧ (process_protection_check content_type = Respond tt
     ↔ content_type = None ∨ content_type = Some []
       ∨ ∃ s, content_type = Some s ∧ starts_with (lit "image/") s = true)
  ∧ (validate_image_upload content_type = Respond tt →
       process_protection_check content_type = Respond tt)
  ∧ (process_protection_check content_type = Respond tt →
       validate_image_upload content_type ≠ Respond tt →
       content_type = None ∨ content_type = Some [])
  ∧ (validate_image_upload content_type ≠ Respond tt →
       validate_image_upload content_type
       = HTTPException 400 (lit "Invalid file type. Please upload a PNG or JPEG image.")).
Proof.
  split; [apply validate_accepts|]. split; [apply protection_accepts|].
  split; [|split].
  - rewrite validate_accepts, protection_accepts. auto.
  - rewrite validate_accepts, protection_accepts. intros [Hn|[Hn|Hs]] Hv; auto.
    now contradiction Hv.
  - unfold validate_image_upload. destruct (_ || _); [reflexivity|].
    intros Hv. now contradiction Hv.
Qed.

Lemma content_type_tests_witness :
  validate_image_upload None
  = HTTPException 400 (lit "Invalid file type. Please upload a PNG or JPEG image.")
  ∧ process_protection_check None = Respond tt
  ∧ validate_image_upload (Some (lit "image/png")) = Respond tt.
Proof.
  split; [|split].
  - apply (proj2 (proj2 (proj2 (proj2 (content_type_tests None))))). discriminate.
  - apply (proj1 (proj2 (content_type_tests None))). auto.
  - apply (proj1 (content_type_tests (Some (lit "image/png")))). eexists. split; reflexivity.
Defined.

End DetectExtras.

(* ===================================================================== *)
(** ** Bulk watermarking *)
(* ===================================================================== *)

Section BulkExtras.
Import stdpp.gmap.
Import Http Dashboard.
Local Open Scope Z_scope.
Implicit Types h : heap.
Variable env : Collaborators.
Variables (owner : list N) (strength : Z).

(** What one pass through the [try] statement does to the operation. *)
Lemma try_file_counters i file op h :
  let r := try_file env owner strength i file op h in
  let op' := fst (fst r) in
  op_status op' = op_status op
  ∧ total_files op' = total_files op
  ∧ created_at op' = created_at op
  ∧ op_user_id op' = op_user_id op
  ∧ (processed_files op' + failed_files op' = S (processed_files op + failed_files op))%nat
  ∧ (processed_files op <= processed_files op')%nat
  ∧ (failed_files op <= failed_files op')%nat
  ∧ length (results op')
    = (length (results op) + if reported file then 1 else 0)%nat
  ∧ (snd (fst r) = true → reported file = false).
Proof.
  unfold try_file, reported. destruct (read file) as [err|[|b raw]]; cbn.
  - rewrite length_app. cbn. repeat split; try lia; try discriminate.
  - repeat split; try lia; try discriminate.
  - destruct (watermark_file env owner strength i (b :: raw) h) as [[err|wid] h']; cbn;
      rewrite length_app; cbn; repeat split; try lia; discriminate.
Qed.

Lemma bulk_loop_counters files : ∀ i op h,
  let r := bulk_loop env owner strength i files op h in
  let op' := fst (fst r) in
  op_status op' = op_status op
  ∧ total_files op' = total_files op
  ∧ created_at op' = created_at op
  ∧ op_user_id op' = op_user_id op
  ∧ (processed_files op <= processed_files op')%nat
  ∧ (failed_files op <= failed_files op')%nat
  ∧ (processed_files op' + failed_files op'
     <= processed_files op + failed_files op + length files)%nat
  ∧ (snd (fst r) = None →
       (processed_files op' + failed_files op'
        = processed_files op + failed_files op + length files)%nat
       ∧ length (results op')
         = (length (results op) + length (filter (λ f, reported f = true) files))%nat)
  ∧ (Forall (λ f, seek0 f = inr tt) files → snd (fst r) = None).
Proof.
  induction files as [|file rest IH]; intros i op h.
  - cbn. repeat split; lia.
  - cbn [bulk_loop].
    pose proof (try_file_counters i file op h) as Ht. cbn zeta in Ht.
    destruct (try_file env owner strength i file op h) as [[op1 skipped] h1].
    cbn [fst snd] in Ht.
    destruct Ht as (Hs & Ht & Hc & Hu & Hsum & Hp & Hf & Hres & Hskip).
    assert (Hnext :
      let r := bulk_loop env owner strength (S i) rest op1 h1 in
      let op' := fst (fst r) in
      op_status op' = op_status op
      ∧ total_files op' = total_files op
      ∧ created_at op' = created_at op
      ∧ op_user_id op' = op_user_id op
      ∧ (processed_files op <= processed_files op')%nat
      ∧ (failed_files op <= failed_files op')%nat
      ∧ (processed_files op' + failed_files op'
         <= processed_files op + failed_files op + length (file :: rest))%nat
      ∧ (snd (fst r) = None →
           (processed_files op' + failed_files op'
            = processed_files op + failed_files op + length (file :: rest))%nat
           ∧ length (results op')
             = (length (results op)
                + length (filter (λ f, reported f = true) (file :: rest)))%nat)
      ∧ (Forall (λ f, seek0 f = inr tt) rest → snd (fst r) = None)).
    { specialize (IH (S i) op1 h1). cbn zeta in IH |- *.
      destruct IH as (Is & It & Ic & Iu & Ip & If & Isum & Inone & Iseek).
      cbn [length]. rewrite filter_cons.
      repeat split; try congruence; try lia.
      - destruct (Inone H) as [E _]. lia.
      - destruct (Inone H) as [_ E]. rewrite E, Hres.
        destruct (decide (reported file = true)) as [->|Hr].
        + cbn [length]. lia.
        + destruct (reported file); [congruence|]. lia.
      - exact Iseek. }
    cbn zeta in Hnext. destruct Hnext as (A1 & A2 & A3 & A4 & A5 & A6 & A7 & A8 & Hk).
    destruct skipped.
    + split_and!; try assumption. intros Hall. apply Hk. now inversion Hall.
    + destruct (seek0 file) as [err|[]] eqn:Es.
      * cbn [fst snd length]. split_and!; try assumption; try lia; try discriminate.
        intros Hall. inversion Hall as [|? ? Hfile _]. congruence.
      * split_and!; try assumption. intros Hall. apply Hk. now inversion Hall.
Qed.

(** X15.  A bulk operation from start to end.  For at most 50 files and a
    strength from 1 to 10, [start_bulk_watermark] registers the operation;
    running [process_bulk_watermark] on it changes no other operation, and
    the status its owner then reads has [total_files] equal to the number
    of files and [processed_files + failed_files] at most that number.
    When no [seek(0)] raises (none does if each succeeds), the task ends
    with status "completed", every file counted exactly once as processed
    or failed, and one result for each file but those with an empty
    payload; when one raises, the status stays "processing". *)
Theorem bulk_accounting (id : list N) (now : Z) (files : list UploadFile)
    (user : list N) (ops : gmap (list N) Operation) h :
  (length files <= 50)%nat →
  1 <= strength <= 10 →
  ∃ ops1 ops2 crash h' op2 st,
    start_bulk_watermark id now files owner strength user ops
    = (Respond {| start_message := lit "Bulk operation started";
                  start_operation_id := id;
                  start_total_files := length files |}, ops1)
    ∧ process_bulk_watermark env id files owner strength ops1 h
      = Some ((ops2, crash), h')
    ∧ (∀ k, k ≠ id → ops2 !! k = ops !! k)
    ∧ ops2 !! id = Some op2
    ∧ get_bulk_operation_status id user ops2 = Respond st
    ∧ bos_status st = op_status op2
    ∧ bos_total_files st = length files
    ∧ bos_processed_files st = processed_files op2
    ∧ bos_failed_files st = failed_files op2
    ∧ (processed_files op2 + failed_files op2 <= length files)%nat
    ∧ (crash = None →
         op_status op2 = "completed"%string
         ∧ (processed_files op2 + failed_files op2 = length files)%nat
         ∧ length (results op2) = length (filter (λ f, reported f = true) files))
    ∧ (crash ≠ None → op_status op2 = "processing"%string)
    ∧ (Forall (λ f, seek0 f = inr tt) files → crash = None).
Proof.
  intros Hn Hs.
  set (op0 := {| op_status := "pending"; total_files := length files;
                 processed_files := 0; failed_files := 0; created_at := now;
                 op_user_id := user; results := [] |}).
  assert (Hstart : start_bulk_watermark id now files owner strength user ops
                   = (Respond {| start_message := lit "Bulk operation started";
                                 start_operation_id := id;
                                 start_total_files := length files |},
                      <[id := op0]> ops)).
  { unfold start_bulk_watermark.
    destruct (Nat.ltb_spec 50 (length files)); [lia|].
    destruct (Z.leb_spec 1 strength); [|lia].
    destruct (Z.leb_spec strength 10); [|lia]. reflexivity. }
  pose proof (bulk_loop_counters files 0 (set_status op0 "processing") h) as Hloop.
  cbn zeta in Hloop.
  exists (<[id := op0]> ops).
  assert (Hproc : process_bulk_watermark env id files owner strength (<[id := op0]> ops) h
                  = match bulk_loop env owner strength 0 files
                            (set_status op0 "processing") h with
                    | ((op1, Some err), h') =>
                        Some ((<[id := op1]> (<[id := op0]> ops), Some err), h')
                    | ((op1, None), h') =>
                        Some ((<[id := set_status op1 "completed"]> (<[id := op0]> ops),
                               None), h')
                    end).
  { unfold process_bulk_watermark. now rewrite lookup_insert_eq. }
  rewrite Hproc. clear Hproc.
  destruct (bulk_loop env owner strength 0 files (set_status op0 "processing") h)
    as [[op1 crash] h'] eqn:El.
  cbn [fst snd] in Hloop.
  destruct Hloop as (Hst & Htot & _ & Huser & _ & _ & Hle & Hnone & Hseek).
  cbn in Hst, Htot, Huser, Hle, Hnone.
  destruct crash as [err|].
  - exists (<[id := op1]> (<[id := op0]> ops)), (Some err), h', op1.
    eexists. split; [exact Hstart|]. split; [reflexivity|].
    split; [intros k Hk; now rewrite !lookup_insert_ne|].
    split; [apply lookup_insert_eq|].
    unfold get_bulk_operation_status. rewrite lookup_insert_eq, Huser.
    rewrite bool_decide_eq_false_2 by (intros Hx; now apply Hx).
    cbn. split_and!; try reflexivity; try assumption; try lia.
    + discriminate.
    + intros _. exact Hst.
  - exists (<[id := set_status op1 "completed"]> (<[id := op0]> ops)), None, h',
           (set_status op1 "completed").
    eexists. split; [exact Hstart|]. split; [reflexivity|].
    split; [intros k Hk; now rewrite !lookup_insert_ne|].
    split; [apply lookup_insert_eq|].
    unfold get_bulk_operation_status. rewrite lookup_insert_eq. cbn [op_user_id set_status].
    rewrite Huser, bool_decide_eq_false_2 by (intros Hx; now apply Hx).
    destruct (Hnone eq_refl) as [Hsum Hres].
    cbn. split_and!; try reflexivity; try assumption; try lia.
    + intros _. split_and!; [reflexivity|lia|exact Hres].
    + intros Hx. now contradiction Hx.
Qed.

(** X16.  A file whose image is too small for the owner's identifier and
    the strength does not stop the batch: the exception of the embedding
    is caught, the file is counted as failed with the exception's text as
    its result, nothing is counted as processed, and the loop goes on
    with the next file.  The exception is the ValueError of the capacity
    check, raised after two copies of the samples were made; only for a
    bit string longer than [PY_SSIZE_T_MAX] is it the OverflowError of
    the repetition of line 26, raised before any copy. *)
Theorem bulk_small_image_fails i file rest op h raw image h1 px :
  read file = inr raw →
  raw ≠ [] →
  load_image_from_bytes env raw h = (inr image, h1) →
  image_at h1 image px →
  (length px < length (binary_data_of owner strength))%nat →
  seek0 file = inr tt →
  let indexed := Z.of_nat (length (binary_data_of owner strength)) <=? PY_SSIZE_T_MAX in
  bulk_loop env owner strength i (file :: rest) op h
  = bulk_loop env owner strength (S i) rest
      (append_result (count_failed op)
         (Failed (filename file)
                 (str_of env (if indexed then ValueError else OverflowError))))
      (if indexed then h1 ++ [px; px] else h1).
Proof.
  intros Hr Hne Hload Himg Hsmall Hseek indexed.
  cbn [bulk_loop]. unfold try_file. rewrite Hr.
  destruct raw as [|b raw]; [congruence|].
  unfold watermark_file. rewrite Hload. subst indexed.
  destruct (Z.leb_spec (Z.of_nat (length (binary_data_of owner strength))) PY_SSIZE_T_MAX)
    as [Hidx|Hidx].
  - rewrite (embed_raise h1 image px Himg owner strength Hidx Hsmall).
    now rewrite Hseek.
  - assert (Hmul : mul_seq (to_binary (owner ++ delimiter)) strength = inl OverflowError).
    { destruct (mul_seq_cases (to_binary (owner ++ delimiter)) strength) as [Hm|Hm];
        [|exact Hm].
      destruct (mul_seq_data_inv _ _ _ Hm) as (_ & _ & Hlen).
      unfold binary_data_of in Hidx. cbv zeta in Hidx. lia. }
    rewrite (embed_run_overflow h1 image owner strength _ Hmul).
    now rewrite Hseek.
Qed.

(** X17.  A file whose image is large enough, for a strength that the
    repetition of line 26 accepts, when the encoder and the record store
    do not fail: the record is saved with [total_bits] equal
    to the length of the embedded bit string, the file is counted as
    processed with the identifier drawn for it as its result, nothing is
    counted as failed, and the decoded image's buffer is left as it was. *)
Theorem bulk_file_processed i file rest op h raw image h1 px watermarked_bytes h3 :
  let bits := binary_data_of owner strength in
  let out := {| Np.size := Np.size image; im := (length h1 + 4)%nat |} in
  let h2 := h1 ++ [px; set_lsbs bits px; set_lsbs bits px; set_lsbs bits px;
                   set_lsbs bits px] in
  read file = inr raw →
  raw ≠ [] →
  load_image_from_bytes env raw h = (inr image, h1) →
  image_at h1 image px →
  - 2 ^ 63 <= strength →
  (length bits <= length px)%nat →
  save_image_to_bytes env out h2 = (inr watermarked_bytes, h3) →
  save_record env (uuid4 env i) (sha256_bytes env watermarked_bytes) owner strength
              (length bits) = inr tt →
  seek0 file = inr tt →
  bulk_loop env owner strength i (file :: rest) op h
  = bulk_loop env owner strength (S i) rest
      (count_processed (append_result op (Success (filename file) (uuid4 env i)))) h3
  ∧ h2 !! im image = Some px.
Proof.
  intros bits out h2 Hr Hne Hload Himg Hlo Hfit Hsave Hrec Hseek. split.
  - cbn [bulk_loop]. unfold try_file. rewrite Hr.
    destruct raw as [|b raw]; [congruence|].
    unfold watermark_file. rewrite Hload.
    rewrite (embed_ok h1 image px Himg owner strength Hlo Hfit).
    fold bits out h2. rewrite Hsave, Hrec. now rewrite Hseek.
  - destruct Himg as (Hpx & _). subst h2. rewrite lookup_app_l; [exact Hpx|].
    now apply lookup_lt_Some in Hpx.
Qed.

End BulkExtras.

Section BulkStatus.
Import stdpp.gmap.
Import Http Dashboard.
Local Open Scope Z_scope.

(** X18.  Starting a bulk operation and reading its status.  With more
    than 50 files, or a strength outside 1..10, the start is refused with
    status 400 and [bulk_operations] is unchanged.  Otherwise the
    operation is registered: its owner reads it as "pending" with the
    number of files and zero counters, any other user is refused with
    status 403, and the status of every other operation is what it was. *)
Theorem bulk_start_then_status (id : list N) (now : Z) (files : list UploadFile)
    (owner : list N) (strength : Z) (user : list N) (ops : gmap (list N) Operation) :
  ((50 < length files)%nat ∨ strength < 1 ∨ 10 < strength →
     ∃ detail,
       start_bulk_watermark id now files owner strength user ops
       = (HTTPException 400 detail, ops))
  ∧ ((length files <= 50)%nat → 1 <= strength <= 10 →
       ∃ ops',
         start_bulk_watermark id now files owner strength user ops
         = (Respond {| start_message := lit "Bulk operation started";
                       start_operation_id := id;
                       start_total_files := length files |}, ops')
         ∧ get_bulk_operation_status id user ops'
           = Respond {| bos_operation_id := id;
                        bos_status := "pending";
                        bos_total_files := length files;
                        bos_processed_files := 0;
                        bos_failed_files := 0;
                        bos_created_at := now |}
         ∧ (∀ other, other ≠ user →
              get_bulk_operation_status id other ops'
              = HTTPException 403 (lit "Access denied"))
         ∧ (∀ k reader, k ≠ id →
              get_bulk_operation_status k reader ops'
              = get_bulk_operation_status k reader ops)).
Proof.
  unfold start_bulk_watermark. split.
  - intros Hbad. destruct (Nat.ltb_spec 50 (length files)); [eauto|].
    destruct (Z.leb_spec 1 strength); cbn [andb negb]; [|eauto].
    destruct (Z.leb_spec strength 10); cbn [negb]; [lia|eauto].
  - intros Hn Hs.
    destruct (Nat.ltb_spec 50 (length files)); [lia|].
    destruct (Z.leb_spec 1 strength); [|lia].
    destruct (Z.leb_spec strength 10); [|lia]. cbn [andb negb].
    eexists. split; [reflexivity|]. unfold get_bulk_operation_status.
    split; [|split].
    + rewrite lookup_insert_eq. cbn [op_user_id].
      now rewrite bool_decide_eq_false_2 by (intros Hx; now apply Hx).
    + intros other Ho. rewrite lookup_insert_eq. cbn [op_user_id].
      rewrite bool_decide_eq_true_2; [reflexivity|]. congruence.
    + intros k reader Hk. now rewrite lookup_insert_ne.
Qed.

Lemma bulk_start_then_status_witness :
  ∃ ops',
    start_bulk_watermark (lit "op-1") 0 [sample_file] (lit "alice") 5 (lit "u1") ∅
    = (Respond {| start_message := lit "Bulk operation started";
                  start_operation_id := lit "op-1";
                  start_total_files := 1 |}, ops')
    ∧ get_bulk_operation_status (lit "op-1") (lit "u2") ops'
      = HTTPException 403 (lit "Access denied").
Proof.
  destruct (proj2 (bulk_start_then_status (lit "op-1") 0 [sample_file] (lit "alice") 5
                     (lit "u1") ∅) ltac:(simpl; lia) ltac:(lia))
    as (ops' & Hs & _ & H403 & _).
  exists ops'. split; [exact Hs|]. apply H403. discriminate.
Defined.

Lemma bulk_accounting_witness :
  ∃ ops2 h' op2,
    process_bulk_watermark (sample_env 4 4) (lit "op-1") [sample_file; sample_file]
      (lit "a") 1
      (snd (start_bulk_watermark (lit "op-1") 0 [sample_file; sample_file]
              (lit "a") 1 (lit "u1") ∅)) []
    = Some ((ops2, None), h')
    ∧ ops2 !! lit "op-1" = Some op2
    ∧ (processed_files op2 + failed_files op2 = 2)%nat.
Proof.
  destruct (bulk_accounting (sample_env 4 4) (lit "a") 1 (lit "op-1") 0
              [sample_file; sample_file] (lit "u1") ∅ [] ltac:(simpl; lia) ltac:(lia))
    as (ops1 & ops2 & crash & h' & op2 & st & Hs & Hp & _ & Ho & _ & _ & _ & _ & _ & _
        & Hnone & _ & Hseek).
  assert (Hc : crash = None) by (apply Hseek; repeat constructor).
  subst crash. rewrite Hs. cbn [snd].
  exists ops2, h', op2. split; [exact Hp|]. split; [exact Ho|].
  now destruct (Hnone eq_refl) as (_ & E & _).
Defined.

Lemma bulk_small_image_fails_witness :
  ∃ op' h',
    bulk_loop (sample_env 1 1) (lit "a") 1 0 [sample_file]
      {| op_status := "processing"; total_files := 1; processed_files := 0;
         failed_files := 0; created_at := 0; op_user_id := lit "u1"; results := [] |} []
    = ((op', None), h')
    ∧ failed_files op' = 1%nat ∧ processed_files op' = 0%nat.
Proof.
  eexists _, _. split.
  - rewrite (bulk_small_image_fails (sample_env 1 1) (lit "a") 1 0 sample_file [] _ []
               [0] {| Np.size := (1%nat, 1%nat); im := 0%nat |} [[0; 0; 0]] [0; 0; 0]);
      try reflexivity.
    + discriminate.
    + apply image_at_check. reflexivity.
    + vm_compute. lia.
  - split; reflexivity.
Defined.

Lemma bulk_file_processed_witness :
  ∃ op' h',
    bulk_loop (sample_env 4 4) (lit "a") 1 0 [sample_file]
      {| op_status := "processing"; total_files := 1; processed_files := 0;
         failed_files := 0; created_at := 0; op_user_id := lit "u1"; results := [] |} []
    = ((op', None), h')
    ∧ processed_files op' = 1%nat
    ∧ results op' = [Success (lit "a.png") [0%N]].
Proof.
  eexists _, _. split.
  - rewrite (proj1 (bulk_file_processed (sample_env 4 4) (lit "a") 1 0 sample_file [] _ []
               [0] {| Np.size := (4%nat, 4%nat); im := 0%nat |} [blank 48] (blank 48) [] _
               eq_refl ltac:(discriminate) eq_refl
               ltac:(apply image_at_check; vm_compute; reflexivity)
               ltac:(lia) ltac:(vm_compute; lia) eq_refl eq_refl eq_refl)).
    reflexivity.
  - split; reflexivity.
Defined.

End BulkStatus.
